(** * collectors/adjust.py: the adjust.com collector

    A shallow embedding of [src/collectors/adjust.py] and the properties of
    its pipeline: build the report URL, fetch one table per configured app,
    concatenate the tables, write the CSV file, truncate and reload the
    warehouse table.

    Python values are embedded as follows.
    - [str] is [string]; a character of a [str] is one [ascii].
    - A [dict] whose iteration order matters (the app mapping, keyword
      arguments of [str.format]) is an association list in insertion order.
    - The file system and the warehouse are finite maps ([gmap]) inside an
      explicit [world] that every effectful function threads.
    - A raised exception is the [Raise] branch of [result]; nothing in the
      module catches an exception, so [Raise] always propagates. *)

From Stdlib Require Import ZArith Ascii String DecimalString Lia.
From Stdlib Require Import QArith_base.
From stdpp Require Import base option list strings gmap.

Close Scope Q_scope.
Local Open Scope Z_scope.

(** ** Exceptions and results *)

Inductive exn : Type :=
| ValueError (msg : string)
| KeyError (key : string)
| IndexError (msg : string)
| URLError (url : string)
| ParserError (msg : string)
| OverflowError (msg : string)
| FileNotFoundError (path : string)
| NotADirectoryError (path : string)
| IsADirectoryError (path : string)
| FileExistsError (path : string)
| PermissionError (path : string)
| OSError (path : string)
| DatabaseError (stmt : string)
| ConfigError (path : string).

Inductive result (A : Type) : Type :=
| Ok (a : A)
| Raise (e : exn).
Arguments Ok {A} a.
Arguments Raise {A} e.

#[global] Instance result_ret : MRet result := @Ok.
#[global] Instance result_bind : MBind result := λ A B f m,
  match m with
  | Ok a => f a
  | Raise e => Raise e
  end.

Definition is_ok {A} (r : result A) : bool :=
  match r with Ok _ => true | Raise _ => false end.

(** ** Strings *)

Module Str.

Definition of_char (c : ascii) : string := String c EmptyString.

(** [s.startswith(p)], returning the rest of [s] after [p]. *)
Fixpoint strip_prefix (p s : string) : option string :=
  match p with
  | EmptyString => Some s
  | String a p' =>
      match s with
      | EmptyString => None
      | String b s' => if Ascii.eqb a b then strip_prefix p' s' else None
      end
  end.

(** [s.partition(sep)] when [sep] occurs in [s]: the text before the first
    occurrence and the text after it. *)
Fixpoint split_at (sep s : string) : option (string * string) :=
  match strip_prefix sep s with
  | Some rest => Some (EmptyString, rest)
  | None =>
      match s with
      | EmptyString => None
      | String c s' =>
          match split_at sep s' with
          | Some (l, r) => Some (String c l, r)
          | None => None
          end
      end
  end.

Fixpoint ends_with_char (c : ascii) (s : string) : bool :=
  match s with
  | EmptyString => false
  | String a EmptyString => Ascii.eqb a c
  | String _ s' => ends_with_char c s'
  end.

Definition starts_with_char (c : ascii) (s : string) : bool :=
  match s with
  | String a _ => Ascii.eqb a c
  | EmptyString => false
  end.

(** [sep.join(l)] *)
Fixpoint join (sep : string) (l : list string) : string :=
  match l with
  | [] => EmptyString
  | [s] => s
  | s :: l' => s +:+ sep +:+ join sep l'
  end.

End Str.

(** ** [str.format]

    The replacement fields the module uses are [{name}] (a keyword argument)
    and [{}] (the next positional argument); [{{] and [}}] are the escaped
    braces.  Every argument the module passes is a [str], which [format]
    inserts unchanged. *)

Module Format.

Definition lbrace : ascii := "{"%char.
Definition rbrace : ascii := "}"%char.

Fixpoint kwarg (name : string) (kwargs : list (string * string)) : result string :=
  match kwargs with
  | [] => Raise (KeyError name)
  | (k, v) :: rest => if String.eqb k name then Ok v else kwarg name rest
  end.

Definition arg (i : nat) (args : list string) : result string :=
  match args !! i with
  | Some v => Ok v
  | None => Raise (IndexError "Replacement index out of range for positional args tuple")
  end.

Definition field (name : string) (auto : nat) (args : list string)
    (kwargs : list (string * string)) : result (string * nat) :=
  match name with
  | EmptyString => v ← arg auto args; Ok (v, S auto)
  | _ => v ← kwarg name kwargs; Ok (v, auto)
  end.

(** [scan tmpl cur auto]: [cur] is [Some name] while inside a replacement
    field whose name read so far is [name]; [auto] numbers the [{}] fields. *)
Fixpoint scan (tmpl : string) (cur : option string) (auto : nat)
    (args : list string) (kwargs : list (string * string)) : result string :=
  match tmpl with
  | EmptyString =>
      match cur with
      | None => Ok EmptyString
      | Some _ => Raise (ValueError "expected '}' before end of string")
      end
  | String c rest =>
      match cur with
      | Some name =>
          if Ascii.eqb c rbrace then
            '(v, auto') ← field name auto args kwargs;
            r ← scan rest None auto' args kwargs;
            Ok (v +:+ r)
          else scan rest (Some (name +:+ Str.of_char c)) auto args kwargs
      | None =>
          if Ascii.eqb c lbrace then
            match rest with
            | String c' rest' =>
                if Ascii.eqb c' lbrace then
                  r ← scan rest' None auto args kwargs; Ok (String lbrace r)
                else scan rest (Some EmptyString) auto args kwargs
            | EmptyString => Raise (ValueError "Single '{' encountered in format string")
            end
          else if Ascii.eqb c rbrace then
            match rest with
            | String c' rest' =>
                if Ascii.eqb c' rbrace then
                  r ← scan rest' None auto args kwargs; Ok (String rbrace r)
                else Raise (ValueError "Single '}' encountered in format string")
            | EmptyString => Raise (ValueError "Single '}' encountered in format string")
            end
          else r ← scan rest None auto args kwargs; Ok (String c r)
      end
  end.

Definition format (tmpl : string) (args : list string)
    (kwargs : list (string * string)) : result string :=
  scan tmpl None 0%nat args kwargs.

End Format.
Import Format.

(** ** The request URL *)

Definition ADJUST_URL_BASE : string := "https://api.adjust.com/kpis/v1/{app_key}".

Definition build_dau_url (app_key token : string) : result string :=
  url ← format ADJUST_URL_BASE [] [("app_key", app_key)];
  let url := url +:+ ".csv" in
  q ← format "?user_token={user_token}" [] [("user_token", token)];
  let url := url +:+ q in
  let url := url +:+ "&kpis=daus,waus,maus,installs" in
  let url := url +:+ "&start_date=2000-01-01" in
  let url := url +:+ "&end_date=2030-01-01" in
  let url := url +:+ "&grouping=day,os_names" in
  let url := url +:+ "&os_names=android,ios" in
  Ok url.

(** ** Tables

    A field of the report is a [cell].  [NaN] is pandas' missing value,
    [Float] is a finite float, [Text] is a field that did not parse as a
    number.  A line of the response body has the six fields that [col_names]
    lists; a row of the table that [collect_app] returns has the app name as
    seventh column. *)

Inductive cell : Type :=
| NaN
| Int (z : Z)
| Float (q : Q)
| Text (s : string).

Record line : Type := Line {
  l_adj_date : cell;
  l_os : cell;
  l_daus : cell;
  l_waus : cell;
  l_maus : cell;
  l_installs : cell }.

Record row : Type := Row {
  adj_date : cell;
  os : cell;
  daus : cell;
  waus : cell;
  maus : cell;
  installs : cell;
  app : string }.

Definition col_names : list string :=
  ["adj_date"; "os"; "daus"; "waus"; "maus"; "installs"].

(** ** The world outside the process *)

Record filesystem : Type := Fs {
  dirs : gset string;
  files : gmap string (list string) }.

Record warehouse : Type := Wh {
  tables : gmap string (list string);
  stmts : list string;
  rowcount : Z }.

Record world : Type := World {
  requests : list string;
  connections : list string;
  fs : filesystem;
  wh : warehouse;
  log : list string;
  stdout : list string }.

Definition set_requests (f : list string → list string) (w : world) : world :=
  World (f (requests w)) (connections w) (fs w) (wh w) (log w) (stdout w).
Definition set_connections (f : list string → list string) (w : world) : world :=
  World (requests w) (f (connections w)) (fs w) (wh w) (log w) (stdout w).
Definition set_fs (f : filesystem → filesystem) (w : world) : world :=
  World (requests w) (connections w) (f (fs w)) (wh w) (log w) (stdout w).
Definition set_wh (f : warehouse → warehouse) (w : world) : world :=
  World (requests w) (connections w) (fs w) (f (wh w)) (log w) (stdout w).
Definition set_log (f : list string → list string) (w : world) : world :=
  World (requests w) (connections w) (fs w) (wh w) (f (log w)) (stdout w).
Definition set_stdout (f : list string → list string) (w : world) : world :=
  World (requests w) (connections w) (fs w) (wh w) (log w) (f (stdout w)).

(** The settings that [load_settings] returns, as the example configuration
    in the docstring of [adjust_cmd] lays them out.  [apps] keeps the order
    of the mapping in the file. *)
Record adjust_settings : Type := AdjustSettings {
  token : string;
  apps : list (string * string) }.

Record vertica_settings : Type := VerticaSettings {
  dsn : string;
  table : string }.

Record settings : Type := Settings {
  load_path : string;
  vertica : vertica_settings;
  adjust : adjust_settings }.

(** What the process cannot decide by itself: the answers of the network, of
    the operating system, of the ODBC driver and of the libraries whose code
    is not part of the module. *)
Record env : Type := Env {
  (** the body served at a URL, split into lines of six fields; [None] when
      the request fails *)
  http_get : string → option (list line);
  (** numpy's cast of one value of a column to [int], for the columns whose
      cast this file does not compute itself: the first argument holds the
      fields of the column as [read_csv] read them, which fix the dtype that
      pandas inferred (a 64-bit integer wraps or overflows, a float beyond
      2^53 has lost its low bits, a column of [True] and [False] is read as
      booleans, a text goes through [int()]) *)
  np_cast : list cell → cell → result Z;
  (** how [DataFrame.to_csv] prints one field *)
  csv_field : cell → string;
  (** [collectors.main.load_settings], whose module is not part of the
      sources at hand: the settings read from a configuration file, or the
      exception it raises *)
  load_settings : string → result settings;
  (** whether [pyodbc.connect] accepts a connection string *)
  odbc_accepts : string → bool;
  (** whether the driver fails on a statement for a reason of its own *)
  sql_fault : string → bool;
  (** the error with which the operating system refuses to create a
      directory or a file at a path for a reason that the file system of
      this file does not show: a NUL character, a name that is too long, a
      missing permission, a device that is full or read-only *)
  os_error : string → option exn;
  (** what the driver writes, while it runs a COPY statement, to the local
      files that the statement names after REJECTED DATA and after
      EXCEPTIONS; [None] when it leaves the file alone *)
  copy_sidecars : string → option (list string) * option (list string) }.

(** ** The monad of effectful functions: state and exceptions *)

Definition M (A : Type) : Type := world → result A * world.

#[global] Instance M_ret : MRet M := λ A a w, (Ok a, w).
#[global] Instance M_bind : MBind M := λ A B f m w,
  match m w with
  | (Ok a, w') => f a w'
  | (Raise e, w') => (Raise e, w')
  end.

Definition lift {A} (r : result A) : M A := λ w, (r, w).
Definition raise {A} (e : exn) : M A := λ w, (Raise e, w).
Definition gets {A} (f : world → A) : M A := λ w, (Ok (f w), w).
Definition modify (f : world → world) : M unit := λ w, (Ok tt, f w).

Definition logging_info (msg : string) : M unit := modify (set_log (λ l, l ++ [msg])).
Definition print (msg : string) : M unit := modify (set_stdout (λ l, l ++ [msg])).

(** ** pandas *)

Module pd.

Inductive header_arg : Type :=
| HeaderNone
| HeaderLine (n : nat).

(** [pd.read_csv(url, sep=",", header=h, names=col_names)].  With
    [header=n] the lines before line [n] are skipped and line [n] itself is
    consumed as the header, whose labels [names] replaces; with
    [header=None] every line is data.  Since [names] gives the columns, a
    body without lines is a frame without rows. *)
Definition read_csv (E : env) (url : string) (header : header_arg) : M (list line) :=
  _ ← modify (set_requests (λ l, l ++ [url]));
  match http_get E url with
  | None => raise (URLError url)
  | Some [] => mret []
  | Some body =>
      match header with
      | HeaderNone => mret body
      | HeaderLine n =>
          match drop n body with
          | [] => raise (ParserError "Passed header but the file has fewer lines")
          | _ :: data => mret data
          end
      end
  end.

(** A column of a frame: the fields as [read_csv] read them, which fix the
    dtype of the column, and the values that the column holds now. *)
Record series : Type := Series {
  as_read : list cell;
  values : list cell }.

(** [df[name]] right after [read_csv] *)
Definition column (f : line → cell) (df : list line) : series :=
  Series (f <$> df) (f <$> df).

(** [Series.fillna(v)] *)
Definition fillna (v : cell) (s : series) : series :=
  Series (as_read s) ((λ c, match c with NaN => v | _ => c end) <$> values s).

(** A field that a 64-bit integer and a 64-bit float both hold exactly: a
    missing value, or an integer of magnitude at most 2^53. *)
Definition exact (c : cell) : bool :=
  match c with
  | NaN => true
  | Int z => Z.abs z <=? 2 ^ 53
  | _ => false
  end.

(** The cast of one value of a column to [int].  When every field of the
    column was read as [exact], the column is an integer or a float column
    that holds its integers exactly and the cast returns them; the outcome
    on any other column is the environment's. *)
Definition to_int (E : env) (read : list cell) (c : cell) : result Z :=
  if forallb exact read then
    match c with
    | Int z => if Z.abs z <=? 2 ^ 53 then Ok z else np_cast E read c
    | _ => np_cast E read c
    end
  else np_cast E read c.

Fixpoint to_ints (E : env) (read : list cell) (col : list cell) : result (list cell) :=
  match col with
  | [] => Ok []
  | c :: col' =>
      z ← to_int E read c;
      rest ← to_ints E read col';
      Ok (Int z :: rest)
  end.

(** [Series.astype(int)]: the whole conversion fails when the cast of one
    value does *)
Definition astype_int (E : env) (s : series) : result (list cell) :=
  to_ints E (as_read s) (values s).

(** [pd.concat(frames)] of frames that have the same columns *)
Definition concat (frames : list (list row)) : result (list row) :=
  match frames with
  | [] => Raise (ValueError "No objects to concatenate")
  | _ => Ok (mjoin frames)
  end.

Definition csv_header : string :=
  Str.join "," (col_names ++ ["app"]).

Definition csv_line (E : env) (r : row) : string :=
  Str.join "," (csv_field E <$>
    [adj_date r; os r; daus r; waus r; maus r; installs r; Text (app r)]).

(** the lines that [df.to_csv(path, index=False)] writes *)
Definition to_csv_lines (E : env) (df : list row) : list string :=
  csv_header :: (csv_line E <$> df).

End pd.

(** ** The file system

    Paths are the strings the program passes; the directories that exist and
    the regular files with their lines are looked up by these strings.  Two
    spellings of one directory are two entries, with two exceptions: a file
    can be created below a directory spelled with or without its trailing
    slash, and a path whose last component is [..] names a directory, which
    exists, as soon as the path before that component does. *)

Module os.

Definition slash : ascii := "/"%char.

(** [os.path.join(a, b)] on POSIX *)
Definition path_join (a b : string) : string :=
  if Str.starts_with_char slash b then b
  else match a with
       | EmptyString => b
       | _ => if Str.ends_with_char slash a then a +:+ b else a +:+ "/" +:+ b
       end.

(** the part of [p] up to its last slash, and the part after it *)
Fixpoint split_last (p : string) : string * string :=
  match p with
  | EmptyString => (EmptyString, EmptyString)
  | String c p' =>
      let '(h, t) := split_last p' in
      match h with
      | EmptyString =>
          if Ascii.eqb c slash then (Str.of_char c, t) else (EmptyString, String c t)
      | _ => (String c h, t)
      end
  end.

(** [s.rstrip('/')] *)
Fixpoint rstrip (s : string) : string :=
  match s with
  | EmptyString => EmptyString
  | String c s' =>
      match rstrip s' with
      | EmptyString => if Ascii.eqb c slash then EmptyString else Str.of_char c
      | r => String c r
      end
  end.

(** the directories above [p]: every non-empty prefix of [p] that a slash
    follows *)
Fixpoint ancestors_go (pre p : string) : list string :=
  match p with
  | EmptyString => []
  | String c p' =>
      (if Ascii.eqb c slash
       then match pre with EmptyString => [] | _ => [pre] end
       else [])
      ++ ancestors_go (pre +:+ Str.of_char c) p'
  end.
Definition ancestors (p : string) : list string := ancestors_go EmptyString p.

(** [p] is the spelling of a directory, or of a regular file, of the store *)
Definition is_dir (f : filesystem) (p : string) : bool := bool_decide (p ∈ dirs f).
Definition is_file (f : filesystem) (p : string) : bool :=
  bool_decide (is_Some (files f !! p)).

(** the last component of [p], and the path before it, trailing slashes
    apart *)
Definition basename (p : string) : string := snd (split_last (rstrip p)).
Definition dirname (p : string) : string := rstrip (fst (split_last (rstrip p))).

Definition dotdot_last (p : string) : bool := String.eqb (basename p) "..".

(** [p] names a directory: it is the spelling of a directory of the store,
    or its last component is [..] and the path before it is empty (the
    current directory or the root) or names a directory itself.  The first
    argument bounds the number of [..] components that are followed. *)
Fixpoint names_dir_upto (n : nat) (f : filesystem) (p : string) : bool :=
  is_dir f p ||
  match n with
  | O => false
  | S n' =>
      dotdot_last p &&
      match dirname p with
      | EmptyString => true
      | q => names_dir_upto n' f q
      end
  end.
Definition names_dir (f : filesystem) (p : string) : bool :=
  names_dir_upto (String.length p) f p.

(** [os.path.exists(p)] *)
Definition path_exists (p : string) : M bool :=
  gets (λ w, names_dir (fs w) p || is_file (fs w) p).

(** [os.mkdir(d)] *)
Definition mkdir (E : env) (d : string) : M unit := λ w,
  let f := fs w in
  if names_dir f d || is_file f d then (Raise (FileExistsError d), w)
  else match os_error E d with
       | Some e => (Raise e, w)
       | None => (Ok tt, set_fs (λ f, Fs (dirs f ∪ {[d]}) (files f)) w)
       end.

(** the recursion of [os.makedirs] over the directories above the path,
    outermost first: one that exists is passed, one that is missing is
    created, and nothing can be created below a regular file *)
Fixpoint make_parents (E : env) (ds : list string) : M unit :=
  match ds with
  | [] => mret tt
  | d :: ds' => λ w,
      if names_dir (fs w) d then make_parents E ds' w
      else if is_file (fs w) d then (Raise (NotADirectoryError d), w)
      else (_ ← mkdir E d; make_parents E ds') w
  end.

(** [os.makedirs(p)]: creates every missing directory above [p], then [p]
    itself, which must not exist: a path that ends in [..] exists once the
    directories above it do, and [FileExistsError] is raised for it.  The
    directories created before an error stay. *)
Definition makedirs (E : env) (p : string) : M unit :=
  if bool_decide (p = EmptyString) then raise (FileNotFoundError p)
  else _ ← make_parents E (ancestors p); mkdir E p.

(** whether a file can be created at [path]: the directory part is empty
    (the current directory), is the root, or names a directory, spelled with
    or without its trailing slash *)
Definition parent_is_dir (f : filesystem) (path : string) : bool :=
  let h := fst (split_last path) in
  match rstrip h with
  | EmptyString => true
  | d => names_dir f h || names_dir f d
  end.

(** opening [path] for writing and replacing its content by [content] *)
Definition write_lines (E : env) (path : string) (content : list string) : M unit := λ w,
  let f := fs w in
  if names_dir f path then (Raise (IsADirectoryError path), w)
  else if parent_is_dir f path then
    match os_error E path with
    | Some e => (Raise e, w)
    | None => (Ok tt, set_fs (λ f, Fs (dirs f) (<[path := content]> (files f))) w)
    end
  else (Raise (FileNotFoundError path), w).

End os.

(** [df.to_csv(path, index=False)] *)
Definition to_csv (E : env) (df : list row) (path : string) : M unit :=
  os.write_lines E path (pd.to_csv_lines E df).

(** ** The warehouse behind the ODBC cursor

    The cursor understands the two statements of the module.  [TRUNCATE
    TABLE t] empties [t] and is final.  [COPY t FROM LOCAL 'f' DELIMITER ','
    SKIP 1 REJECTED DATA 'r' EXCEPTIONS 'x' ABORT ON ERROR DIRECT] appends
    the lines of the local file [f] after its first line to [t], or fails
    without loading anything; in both cases the driver may write the local
    files [r] and [x].  A file name ends at the next quote.  [stmts] records
    every statement handed to [execute], in order. *)

Module cursor.

Definition quote : ascii := "'"%char.

(** the text before the first quote of [s], and the text after that quote *)
Fixpoint until_quote (s : string) : option (string * string) :=
  match s with
  | EmptyString => None
  | String c s' =>
      if Ascii.eqb c quote then Some (EmptyString, s')
      else match until_quote s' with
           | Some (l, r) => Some (String c l, r)
           | None => None
           end
  end.

Inductive statement : Type :=
| Truncate (tbl : string)
| CopyLocal (tbl file rejects exceptions : string)
| Unknown.

Definition parse_copy (s : string) : statement :=
  match Str.split_at " FROM LOCAL '" s with
  | None => Unknown
  | Some (t, s) =>
  match until_quote s with
  | None => Unknown
  | Some (file, s) =>
  match Str.strip_prefix " DELIMITER ',' SKIP 1 REJECTED DATA '" s with
  | None => Unknown
  | Some s =>
  match until_quote s with
  | None => Unknown
  | Some (rej, s) =>
  match Str.strip_prefix " EXCEPTIONS '" s with
  | None => Unknown
  | Some s =>
  match until_quote s with
  | None => Unknown
  | Some (exc, s) =>
      if String.eqb s " ABORT ON ERROR DIRECT" then CopyLocal t file rej exc
      else Unknown
  end end end end end end.

Definition parse (stmt : string) : statement :=
  match Str.strip_prefix "TRUNCATE TABLE " stmt with
  | Some t => Truncate t
  | None =>
      match Str.strip_prefix "COPY " stmt with
      | Some rest => parse_copy rest
      | None => Unknown
      end
  end.

Definition submitted (stmt : string) (d : warehouse) : warehouse :=
  Wh (tables d) (stmts d ++ [stmt]) (rowcount d).

Definition store (t : string) (content : list string) (n : Z) (d : warehouse) : warehouse :=
  Wh (<[t := content]> (tables d)) (stmts d) n.

(** the driver writing a local file, or leaving it alone *)
Definition put_file (path : string) (content : option (list string))
    (f : filesystem) : filesystem :=
  match content with
  | Some c => Fs (dirs f) (<[path := c]> (files f))
  | None => f
  end.

(** [cursor.execute(stmt)] *)
Definition execute (E : env) (stmt : string) : M unit := λ w,
  let w := set_wh (submitted stmt) w in
  match parse stmt with
  | Truncate t =>
      if sql_fault E stmt then (Raise (DatabaseError stmt), w)
      else match tables (wh w) !! t with
           | Some _ => (Ok tt, set_wh (store t [] (-1)) w)
           | None => (Raise (DatabaseError stmt), w)
           end
  | CopyLocal t file rej exc =>
      let source := files (fs w) !! file in
      let w := set_fs (λ f, put_file exc (copy_sidecars E stmt).2
                              (put_file rej (copy_sidecars E stmt).1 f)) w in
      if sql_fault E stmt then (Raise (DatabaseError stmt), w)
      else match tables (wh w) !! t, source with
           | Some old, Some content =>
               let data := drop 1 content in
               (Ok tt, set_wh (store t (old ++ data) (Z.of_nat (length data))) w)
           | _, _ => (Raise (DatabaseError stmt), w)
           end
  | Unknown => (Raise (DatabaseError stmt), w)
  end.

End cursor.

(** [str(n)] of an [int] *)
Definition str_of_int (n : Z) : string := NilZero.string_of_int (Z.to_int n).

(** ** The collector *)

(** [for app, key in ...]: one item of the iteration is unpacked into two
    targets.  The items are [str]s, whose elements are their characters. *)
Definition unpack2 (item : string) : result (string * string) :=
  match item with
  | EmptyString => Raise (ValueError "not enough values to unpack (expected 2, got 0)")
  | String _ EmptyString => Raise (ValueError "not enough values to unpack (expected 2, got 1)")
  | String a (String b EmptyString) => Ok (Str.of_char a, Str.of_char b)
  | String _ (String _ (String _ _)) => Raise (ValueError "too many values to unpack (expected 2)")
  end.

(** [iter(d)] of a [dict]: its keys, in insertion order *)
Definition dict_iter (d : list (string * string)) : list string := d.*1.

Definition with_installs (l : line) (c : cell) : line :=
  Line (l_adj_date l) (l_os l) (l_daus l) (l_waus l) (l_maus l) c.

Definition with_app (app_name : string) (l : line) : row :=
  Row (l_adj_date l) (l_os l) (l_daus l) (l_waus l) (l_maus l) (l_installs l) app_name.

Definition collect_app (E : env) (app_name url : string) : M (list row) :=
  df ← pd.read_csv E url (pd.HeaderLine 0);
  col ← lift (pd.astype_int E (pd.fillna (Int 0) (pd.column l_installs df)));
  let df := zip_with with_installs df col in
  let df := with_app app_name <$> df in
  msg ← lift (format "{} collected" [app_name] []);
  _ ← logging_info msg;
  mret df.

Definition connect (E : env) (dsn : string) : M unit :=
  let conn_str := "DSN=" +:+ dsn in
  if odbc_accepts E conn_str then
    _ ← modify (set_connections (λ l, l ++ [conn_str]));
    logging_info "Database connection established"
  else raise (DatabaseError conn_str).

Definition default_filename : string := "output.csv".

Definition write_to_file (E : env) (df : list row) (load_path filename : string) : M string :=
  let data_file := os.path_join load_path filename in
  present ← os.path_exists load_path;
  _ ← (if negb present then os.makedirs E load_path else mret tt);
  _ ← to_csv E df data_file;
  mret data_file.

Fixpoint merge_loop (E : env) (items : list string) (adjust_token : string)
    (frames : list (list row)) : M (list (list row)) :=
  match items with
  | [] => mret frames
  | item :: items' =>
      '(app, key) ← lift (unpack2 item);
      url ← lift (build_dau_url key adjust_token);
      df ← collect_app E app url;
      merge_loop E items' adjust_token (frames ++ [df])
  end.

Definition merge_apps (E : env) (apps : list (string * string)) (adjust_token : string)
    : M (list row) :=
  frames ← merge_loop E (dict_iter apps) adjust_token [];
  lift (pd.concat frames).

Definition trunc_tmpl : string := "TRUNCATE TABLE {tbl}".

Definition copy_tmpl : string :=
  "COPY {table} FROM LOCAL '{data_file}' " +:+
  "DELIMITER ',' SKIP 1 " +:+
  "REJECTED DATA '{reject_file}' " +:+
  "EXCEPTIONS '{exception_file}' " +:+
  "ABORT ON ERROR DIRECT".

Definition load (E : env) (table data_file reject_file exception_file : string) : M unit :=
  trunc ← lift (format trunc_tmpl [] [("tbl", table)]);
  _ ← cursor.execute E trunc;
  let files := [("data_file", data_file); ("reject_file", reject_file);
                ("exception_file", exception_file)] in
  copy_stmt ← lift (format copy_tmpl [] (("table", table) :: files));
  _ ← print copy_stmt;
  _ ← cursor.execute E copy_stmt;
  count ← gets (λ w, rowcount (wh w));
  msg ← lift (format "Completed loading {table} - #{count} Records" []
                [("table", table); ("count", str_of_int count)]);
  logging_info msg.

Definition collect (E : env) (adj_settings : adjust_settings) (load_path : string) : M string :=
  let apps := apps adj_settings in
  let token := token adj_settings in
  df ← merge_apps E apps token;
  write_to_file E df load_path default_filename.

Definition adjust_cmd (E : env) (config_file : string) : M unit :=
  settings ← lift (load_settings E config_file);
  let adjust_settings := adjust settings in
  let vertica_settings := vertica settings in
  let load_path := load_path settings in
  _ ← connect E (dsn vertica_settings);
  output_file ← collect E adjust_settings load_path;
  let reject_file := os.path_join load_path "rejects" in
  let exception_file := os.path_join load_path "exceptions" in
  load E (table vertica_settings) output_file reject_file exception_file.

(** ** Vocabulary of the statements *)

Definition copy_sql (tbl data_file reject_file exception_file : string) : string :=
  "COPY " +:+ tbl +:+ " FROM LOCAL '" +:+ data_file +:+
  "' DELIMITER ',' SKIP 1 REJECTED DATA '" +:+ reject_file +:+
  "' EXCEPTIONS '" +:+ exception_file +:+ "' ABORT ON ERROR DIRECT".

Definition collected_log (app_name : string) (w : world) : world :=
  set_log (λ l, l ++ [app_name +:+ " collected"]) w.

Definition requested (url : string) (w : world) : world :=
  set_requests (λ l, l ++ [url]) w.

(** A row of the table against the line of the body it was read from: the
    five columns other than installs are as read, installs holds an integer
    and the app column holds the name. *)
Definition row_of (app_name : string) (l : line) (r : row) : Prop :=
  adj_date r = l_adj_date l ∧ os r = l_os l ∧ daus r = l_daus l ∧
  waus r = l_waus l ∧ maus r = l_maus l ∧ app r = app_name ∧
  ∃ z, installs r = Int z.

(** The integer that an [exact] field becomes: a missing value becomes 0. *)
Definition filled (c : cell) : Z :=
  match c with
  | Int z => z
  | _ => 0
  end.

Definition is_int (c : cell) : bool :=
  match c with
  | Int _ => true
  | _ => false
  end.

(** A path at which [write_to_file] can keep its file: it is not empty, no
    regular file sits at it or above it, its [output.csv] is not a
    directory, neither the path nor a directory above it ends in a [..]
    component, and the operating system refuses neither the path and the
    directories above it nor its [output.csv]. *)
Definition target_dir (E : env) (f : filesystem) (p : string) : bool :=
  negb (String.eqb p EmptyString)
  && negb (os.is_file f p)
  && negb (existsb (os.is_file f) (os.ancestors p))
  && negb (os.is_dir f (os.path_join p default_filename))
  && negb (existsb os.dotdot_last (os.ancestors p ++ [p]))
  && forallb (λ d, bool_decide (os_error E d = None))
       (os.ancestors p ++ [p; os.path_join p default_filename]).

(** The world with other directories. *)
Definition with_dirs (d : gset string) (w : world) : world :=
  set_fs (λ f, Fs d (files f)) w.


Definition completed_log (tbl : string) (w : world) : world :=
  set_log (λ l, l ++ ["Completed loading " +:+ tbl +:+ " - #" +:+
                      str_of_int (rowcount (wh w)) +:+ " Records"]) w.

Definition printed (msg : string) (w : world) : world :=
  set_stdout (λ l, l ++ [msg]) w.

Definition connected (conn_str : string) (w : world) : world :=
  set_log (λ l, l ++ ["Database connection established"])
    (set_connections (λ l, l ++ [conn_str]) w).

(** The URL that the loop of [merge_apps] requests for one item of the
    iteration. *)
Definition item_url (tok item : string) : result string :=
  '(_, key) ← unpack2 item; build_dau_url key tok.

(** A frame against the item of the iteration it was fetched for: the item
    has two characters, the frame is labelled with the first and holds the
    lines after the first line of the body at the URL of the second, with
    the missing installs of a column of [exact] fields filled with 0. *)
Definition fetched_for (E : env) (tok item : string) (df : list row) : Prop :=
  ∃ a k url body,
    item = String a (String k EmptyString) ∧
    build_dau_url (Str.of_char k) tok = Ok url ∧
    http_get E url = Some body ∧
    Forall2 (row_of (Str.of_char a)) (drop 1 body) df ∧
    (forallb (λ l, pd.exact (l_installs l)) (drop 1 body) = true →
     Forall2 (λ l r, installs r = Int (filled (l_installs l))) (drop 1 body) df).

Definition two_chars (item : string) : bool :=
  Nat.eqb (String.length item) 2.

(** ** Sample data *)

Module Sample.

Definition header : line :=
  Line (Text "date") (Text "os_name") (Text "daus") (Text "waus") (Text "maus")
       (Text "installs").

Definition day (d : string) (n : cell) : line :=
  Line (Text d) (Text "android") (Int 10) (Int 20) (Int 30) n.

Definition print_cell (c : cell) : string :=
  match c with
  | NaN => EmptyString
  | Int z => str_of_int z
  | Float q => str_of_int (Qnum q) +:+ "/" +:+ str_of_int (Z.pos (Qden q))
  | Text s => s
  end.

Definition config : settings :=
  Settings "/tmp/adjust_daus"
    (VerticaSettings "vertica" "adjust_daily_active_users")
    (AdjustSettings "abcdefg" [("firefox", "abc123"); ("focus", "abc123")]).

(** An environment in which the network answers [answer], the driver
    accepts every connection, fails on the statements [fault] selects and
    writes no local file, the operating system refuses nothing, and a cast
    that is left to numpy raises. *)
Definition serving (answer : string → option (list line)) (conf : settings)
    (fault : string → bool) : env :=
  Env answer (λ _ _, Raise (ValueError "invalid literal for int() with base 10"))
    print_cell (λ _, Ok conf) (λ _, true) fault (λ _, None) (λ _, (None, None)).

Definition idle : world := World [] [] (Fs ∅ ∅) (Wh ∅ [] 0) [] [].

(** the table of a result, empty when the call raised *)
Definition table_of (r : result (list row)) : list row :=
  match r with
  | Ok df => df
  | Raise _ => []
  end.

Definition url_of (key : string) : string :=
  "https://api.adjust.com/kpis/v1/" +:+ key +:+
  ".csv?user_token=abcdefg&kpis=daus,waus,maus,installs&start_date=2000-01-01&end_date=2030-01-01&grouping=day,os_names&os_names=android,ios".

Definition three : list line :=
  [day "2019-01-01" (Int 1); day "2019-01-02" NaN; day "2019-01-03" (Int 3)].

Definition five : list line :=
  [day "2019-01-01" (Int 1); day "2019-01-02" (Int 2); day "2019-01-03" (Int 3);
   day "2019-01-04" (Int 4); day "2019-01-05" (Int 5)].

(** three rows under the first key, five under the second, each after a
    header line *)
Definition two_apps (k1 k2 : string) (url : string) : option (list line) :=
  if String.eqb url (url_of k1) then Some (header :: three)
  else if String.eqb url (url_of k2) then Some (header :: five)
  else None.

(** a driver that fails on every COPY statement *)
Definition copy_fails (stmt : string) : bool :=
  match Str.strip_prefix "COPY " stmt with
  | Some _ => true
  | None => false
  end.

(** a world after an earlier run: the output file is on disk and the table
    holds a row *)
Definition stocked : world :=
  World [] []
    (Fs {[ "/tmp"; "/tmp/adjust_daus" ]}
        {[ "/tmp/adjust_daus/output.csv" :=
             ["adj_date,os,daus,waus,maus,installs,app";
              "2019-01-01,android,10,20,30,1,firefox"] ]})
    (Wh {[ "adjust_daily_active_users" := ["2018-12-31,android,9,19,29,0,firefox"] ]} [] 0)
    [] [].

(** a configuration whose app names have two characters *)
Definition short_names : settings :=
  Settings "/tmp/adjust_daus"
    (VerticaSettings "vertica" "adjust_daily_active_users")
    (AdjustSettings "abcdefg" [("fx", "abc123"); ("fc", "def456")]).

End Sample.

(** * Properties *)

(** ** Strings *)

Lemma string_app_cons (x : ascii) (a b : string) : String x a +:+ b = String x (a +:+ b).
Proof. reflexivity. Qed.

Lemma string_app_assoc (a b c : string) : (a +:+ b) +:+ c = a +:+ b +:+ c.
Proof.
  induction a as [|x a IH]; [reflexivity|].
  rewrite !string_app_cons. by rewrite IH.
Qed.

Lemma string_app_empty_r (a : string) : a +:+ EmptyString = a.
Proof.
  induction a as [|x a IH]; [reflexivity|].
  rewrite string_app_cons. by rewrite IH.
Qed.

(** ** Formatting the templates of the module *)

Lemma format_url_base (k : string) :
  format ADJUST_URL_BASE [] [("app_key", k)] = Ok ("https://api.adjust.com/kpis/v1/" +:+ k).
Proof.
  transitivity (Ok (A:=string) ("https://api.adjust.com/kpis/v1/" +:+ k +:+ EmptyString));
    [reflexivity | by rewrite string_app_empty_r].
Qed.

Lemma format_user_token (t : string) :
  format "?user_token={user_token}" [] [("user_token", t)] = Ok ("?user_token=" +:+ t).
Proof.
  transitivity (Ok (A:=string) ("?user_token=" +:+ t +:+ EmptyString));
    [reflexivity | by rewrite string_app_empty_r].
Qed.

Lemma format_collected (app_name : string) :
  format "{} collected" [app_name] [] = Ok (app_name +:+ " collected").
Proof. reflexivity. Qed.

Lemma format_trunc (tbl : string) :
  format trunc_tmpl [] [("tbl", tbl)] = Ok ("TRUNCATE TABLE " +:+ tbl).
Proof.
  transitivity (Ok (A:=string) ("TRUNCATE TABLE " +:+ tbl +:+ EmptyString));
    [reflexivity | by rewrite string_app_empty_r].
Qed.

Lemma format_copy (tbl d r x : string) :
  format copy_tmpl []
    [("table", tbl); ("data_file", d); ("reject_file", r); ("exception_file", x)]
  = Ok (copy_sql tbl d r x).
Proof. reflexivity. Qed.

Lemma format_completed (tbl count : string) :
  format "Completed loading {table} - #{count} Records" []
    [("table", tbl); ("count", count)]
  = Ok ("Completed loading " +:+ tbl +:+ " - #" +:+ count +:+ " Records").
Proof. reflexivity. Qed.

Lemma build_dau_url_eq (k t : string) :
  build_dau_url k t =
  Ok ("https://api.adjust.com/kpis/v1/" +:+ k +:+ ".csv?user_token=" +:+ t +:+
      "&kpis=daus,waus,maus,installs&start_date=2000-01-01&end_date=2030-01-01&grouping=day,os_names&os_names=android,ios").
Proof.
  unfold build_dau_url. rewrite format_url_base, format_user_token.
  unfold mbind, result_bind, mret, result_ret. f_equal.
  rewrite !string_app_assoc. reflexivity.
Qed.

(** ** The fetcher *)

Lemma to_ints_Int E (read col col' : list cell) :
  pd.to_ints E read col = Ok col' →
  Forall2 (λ c c', ∃ z, c' = Int z) col col'.
Proof.
  revert col'. induction col as [|c col IH]; intros col' H; cbn [pd.to_ints] in H.
  - inversion H. constructor.
  - destruct (pd.to_int E read c) as [z|e]; cbn in H; [|discriminate].
    destruct (pd.to_ints E read col) as [rest|e]; cbn in H; [|discriminate].
    inversion H; subst. constructor; [by exists z | by apply IH].
Qed.

Lemma to_ints_exact E (read col : list cell) :
  forallb pd.exact read = true →
  forallb pd.exact col = true →
  pd.to_ints E read ((λ c, match c with NaN => Int 0 | _ => c end) <$> col) =
  Ok ((λ c, Int (filled c)) <$> col).
Proof.
  intros Hread. induction col as [|c col IH]; [reflexivity|].
  cbn [forallb]. intros [Hc Hcol]%andb_true_iff.
  cbn [fmap list_fmap pd.to_ints]. unfold pd.to_int at 1. rewrite Hread.
  fold (fmap (M:=list) (λ c, match c with NaN => Int 0 | _ => c end) col).
  rewrite (IH Hcol).
  destruct c as [|z|q|t]; try discriminate.
  - reflexivity.
  - cbn in Hc. rewrite Hc. reflexivity.
Qed.

Lemma collect_app_eq E (app_name url : string) (w : world) :
  collect_app E app_name url w =
  match http_get E url with
  | None => (Raise (URLError url), requested url w)
  | Some body =>
      match pd.astype_int E (pd.fillna (Int 0) (pd.column l_installs (drop 1 body))) with
      | Raise e => (Raise e, requested url w)
      | Ok col =>
          (Ok (with_app app_name <$> zip_with with_installs (drop 1 body) col),
           collected_log app_name (requested url w))
      end
  end.
Proof.
  unfold collect_app, pd.read_csv, mbind, M_bind, modify, lift, raise, mret, M_ret,
    logging_info, modify.
  destruct (http_get E url) as [[|hdr data]|]; simpl; [reflexivity| |reflexivity].
  destruct (pd.astype_int E _) as [col|e]; reflexivity.
Qed.

Lemma row_of_int app_name l r : row_of app_name l r → is_int (installs r) = true.
Proof. intros (_ & _ & _ & _ & _ & _ & z & H). by rewrite H. Qed.

Lemma rows_of_table app_name (data : list line) (col : list cell) :
  Forall2 (λ c c', ∃ z, c' = Int z) (l_installs <$> data) col →
  Forall2 (row_of app_name) data (with_app app_name <$> zip_with with_installs data col).
Proof.
  revert col. induction data as [|l data IH]; intros col H.
  - constructor.
  - inversion H as [|c c' cs col' (z & ->) Hrest]; subst. simpl.
    constructor; [|by apply IH].
    unfold row_of; simpl. repeat (split; [reflexivity|]). by exists z.
Qed.

Lemma collect_app_Ok_inv E app_name url w df w' :
  collect_app E app_name url w = (Ok df, w') →
  ∃ body,
    http_get E url = Some body ∧
    Forall2 (row_of app_name) (drop 1 body) df ∧
    w' = collected_log app_name (requested url w).
Proof.
  rewrite collect_app_eq.
  destruct (http_get E url) as [body|]; [|discriminate].
  destruct (pd.astype_int E _) as [col|e] eqn:Hcol; [|discriminate].
  intros H; inversion H; subst. exists body. split; [done|]. split; [|done].
  apply rows_of_table.
  unfold pd.astype_int, pd.fillna, pd.column in Hcol. cbn [pd.as_read pd.values] in Hcol.
  apply to_ints_Int in Hcol. by apply Forall2_fmap_l in Hcol.
Qed.

Lemma installs_of_table app_name (data : list line) :
  Forall2 (λ l r, installs r = Int (filled (l_installs l))) data
    (with_app app_name <$>
       zip_with with_installs data ((λ c, Int (filled c)) <$> (l_installs <$> data))).
Proof. induction data as [|l data IH]; constructor; [reflexivity | exact IH]. Qed.

Lemma collect_app_exact E app_name url body w :
  http_get E url = Some body →
  forallb (λ l, pd.exact (l_installs l)) (drop 1 body) = true →
  collect_app E app_name url w =
  (Ok (with_app app_name <$>
         zip_with with_installs (drop 1 body)
           ((λ c, Int (filled c)) <$> (l_installs <$> drop 1 body))),
   collected_log app_name (requested url w)).
Proof.
  intros Hget Hex. rewrite collect_app_eq, Hget.
  assert (forallb pd.exact (l_installs <$> drop 1 body) = true) as Hcol.
  { clear Hget. induction (drop 1 body) as [|l data IH]; [reflexivity|].
    cbn in *. apply andb_true_iff in Hex as [-> Hex]. by apply IH. }
  unfold pd.astype_int, pd.fillna, pd.column. cbn [pd.as_read pd.values].
  by rewrite (to_ints_exact E _ _ Hcol Hcol).
Qed.

Lemma collect_app_Ok_exact E app_name url body w df w' :
  collect_app E app_name url w = (Ok df, w') →
  http_get E url = Some body →
  forallb (λ l, pd.exact (l_installs l)) (drop 1 body) = true →
  Forall2 (λ l r, installs r = Int (filled (l_installs l))) (drop 1 body) df.
Proof.
  intros Hc Hget Hex. rewrite (collect_app_exact E _ _ body) in Hc by done.
  injection Hc as <- _. apply installs_of_table.
Qed.

(** Whatever happens, a fetch leaves the file system and the warehouse alone
    and makes exactly one request. *)
Lemma collect_app_frame E app_name url w r w' :
  collect_app E app_name url w = (r, w') →
  fs w' = fs w ∧ wh w' = wh w ∧ connections w' = connections w ∧
  stdout w' = stdout w ∧ requests w' = requests w ++ [url].
Proof.
  rewrite collect_app_eq.
  destruct (http_get E url) as [body|]; [|intros H; inversion H; subst; done].
  destruct (pd.astype_int E _) as [col|e]; intros H; inversion H; subst; done.
Qed.

(** ** The merger *)

Lemma merge_loop_cons E item items tok frames w :
  merge_loop E (item :: items) tok frames w =
  match unpack2 item with
  | Raise e => (Raise e, w)
  | Ok (a, k) =>
      match build_dau_url k tok with
      | Raise e => (Raise e, w)
      | Ok url =>
          match collect_app E a url w with
          | (Ok df, w1) => merge_loop E items tok (frames ++ [df]) w1
          | (Raise e, w1) => (Raise e, w1)
          end
      end
  end.
Proof.
  cbn [merge_loop]. unfold mbind, M_bind, lift.
  destruct (unpack2 item) as [[a k]|e]; [|reflexivity].
  destruct (build_dau_url k tok) as [url|e]; reflexivity.
Qed.

Lemma merge_loop_app E pre rest tok frames w :
  merge_loop E (pre ++ rest) tok frames w =
  match merge_loop E pre tok frames w with
  | (Ok fr, w1) => merge_loop E rest tok fr w1
  | (Raise e, w1) => (Raise e, w1)
  end.
Proof.
  revert frames w. induction pre as [|item pre IH]; intros frames w; [reflexivity|].
  rewrite <- app_comm_cons, !merge_loop_cons.
  destruct (unpack2 item) as [[a k]|e]; [|reflexivity].
  destruct (build_dau_url k tok) as [url|e]; [|reflexivity].
  destruct (collect_app E a url w) as [[df|e] w1]; [apply IH | reflexivity].
Qed.

Lemma merge_loop_frame E items tok frames w r w' :
  merge_loop E items tok frames w = (r, w') →
  fs w' = fs w ∧ wh w' = wh w ∧ connections w' = connections w ∧ stdout w' = stdout w.
Proof.
  revert frames w. induction items as [|item items IH]; intros frames w.
  - intros H; inversion H; done.
  - rewrite merge_loop_cons.
    destruct (unpack2 item) as [[a k]|e]; [|intros H; inversion H; done].
    destruct (build_dau_url k tok) as [url|e]; [|intros H; inversion H; done].
    destruct (collect_app E a url w) as [[df|e] w1] eqn:Hc;
      apply collect_app_frame in Hc as (Hfs & Hwh & Hcn & Hout & _).
    + intros H. apply IH in H as (-> & -> & -> & ->). done.
    + intros H; inversion H; subst; done.
Qed.

Lemma merge_loop_int E items tok frames w out w' :
  merge_loop E items tok frames w = (Ok out, w') →
  Forall (Forall (λ r, is_int (installs r) = true)) frames →
  Forall (Forall (λ r, is_int (installs r) = true)) out.
Proof.
  revert frames w. induction items as [|item items IH]; intros frames w.
  - intros H; inversion H; done.
  - rewrite merge_loop_cons.
    destruct (unpack2 item) as [[a k]|e]; [|discriminate].
    destruct (build_dau_url k tok) as [url|e]; [|discriminate].
    destruct (collect_app E a url w) as [[df|e] w1] eqn:Hc; [|discriminate].
    intros H Hfr. apply IH in H; [done|].
    apply Forall_app. split; [done|]. constructor; [|constructor].
    apply collect_app_Ok_inv in Hc as (body & _ & Hrows & _).
    clear -Hrows. induction Hrows as [|l r data df Hr _ IHr]; constructor; [|done].
    by eapply row_of_int.
Qed.

Lemma merge_apps_eq E apps tok w :
  merge_apps E apps tok w =
  match merge_loop E (dict_iter apps) tok [] w with
  | (Ok frames, w1) => (pd.concat frames, w1)
  | (Raise e, w1) => (Raise e, w1)
  end.
Proof. reflexivity. Qed.

(** ** The file writer *)





Lemma names_dir_plain f (p : string) :
  os.dotdot_last p = false → os.names_dir f p = os.is_dir f p.
Proof.
  intros H. unfold os.names_dir.
  destruct (String.length p); cbn [os.names_dir_upto]; rewrite ?H; apply orb_false_r.
Qed.

















Lemma make_parents_grows E (ds : list string) w r w' :
  os.make_parents E ds w = (r, w') →
  ∃ d, w' = with_dirs d w ∧ dirs (fs w) ⊆ d.
Proof.
  revert w. induction ds as [|a ds IH]; intros w.
  - intros H; injection H as <- <-. exists (dirs (fs w)). split; [|done].
    by destruct w as [? ? [? ?] ? ? ?].
  - cbn [os.make_parents]. destruct (os.names_dir (fs w) a) eqn:Hdir; [apply IH|].
    destruct (os.is_file (fs w) a) eqn:Hfile.
    { intros H; injection H as <- <-. exists (dirs (fs w)). split; [|done].
      by destruct w as [? ? [? ?] ? ? ?]. }
    unfold mbind, M_bind, os.mkdir. rewrite Hdir, Hfile. cbn [orb].
    destruct (os_error E a).
    { intros H; injection H as <- <-. exists (dirs (fs w)). split; [|done].
      by destruct w as [? ? [? ?] ? ? ?]. }
    intros (d & -> & Hd)%IH. exists d. split; [reflexivity|]. cbn in Hd.
    etrans; [apply union_subseteq_l|exact Hd].
Qed.

Lemma makedirs_grows E p w r w' :
  os.makedirs E p w = (r, w') →
  ∃ d, w' = with_dirs d w ∧ dirs (fs w) ⊆ d.
Proof.
  assert (w = with_dirs (dirs (fs w)) w) as Hsame by (by destruct w as [? ? [? ?] ? ? ?]).
  unfold os.makedirs. destruct (bool_decide (p = EmptyString)).
  { intros H; injection H as <- <-. by exists (dirs (fs w)). }
  unfold mbind, M_bind.
  destruct (os.make_parents E (os.ancestors p) w) as [[u|e] w1] eqn:Hp;
    apply make_parents_grows in Hp as (d & -> & Hd); [|intros H; injection H as <- <-; eauto].
  unfold os.mkdir.
  destruct (os.names_dir (fs (with_dirs d w)) p || os.is_file (fs (with_dirs d w)) p).
  { intros H; injection H as <- <-. eauto. }
  destruct (os_error E p).
  { intros H; injection H as <- <-. eauto. }
  intros H; injection H as <- <-. exists (d ∪ {[p]}). split; [reflexivity|].
  etrans; [exact Hd|apply union_subseteq_l].
Qed.





(** ** The loader *)

Lemma parse_truncate (tbl : string) :
  cursor.parse ("TRUNCATE TABLE " +:+ tbl) = cursor.Truncate tbl.
Proof. reflexivity. Qed.

Lemma put_file_dirs path content f : dirs (cursor.put_file path content f) = dirs f.
Proof. by destruct content. Qed.

Lemma execute_inv E stmt w r w' :
  cursor.execute E stmt w = (r, w') →
  requests w' = requests w ∧ connections w' = connections w ∧
  log w' = log w ∧ stdout w' = stdout w ∧
  stmts (wh w') = stmts (wh w) ++ [stmt] ∧
  (fs w' = fs w ∨
   ∃ t d rj ex,
     cursor.parse stmt = cursor.CopyLocal t d rj ex ∧
     fs w' = cursor.put_file ex (copy_sidecars E stmt).2
               (cursor.put_file rj (copy_sidecars E stmt).1 (fs w))).
Proof.
  unfold cursor.execute. destruct (cursor.parse stmt) as [t|t d rj ex|] eqn:Hp.
  - destruct (sql_fault E stmt); [intros H; injection H as <- <-; cbn; auto 10|].
    cbn. destruct (tables (wh w) !! t); intros H; injection H as <- <-; cbn; auto 10.
  - destruct (sql_fault E stmt).
    { intros H; injection H as <- <-; cbn. repeat split; try done. right.
      by exists t, d, rj, ex. }
    cbn. destruct (tables (wh w) !! t); [|intros H; injection H as <- <-; cbn;
      repeat split; try done; right; by exists t, d, rj, ex].
    destruct (files (fs w) !! d); intros H; injection H as <- <-; cbn;
      repeat split; try done; right; by exists t, d, rj, ex.
  - intros H; injection H as <- <-; cbn; auto 10.
Qed.

Lemma execute_stmts E stmt w r w' :
  cursor.execute E stmt w = (r, w') →
  stmts (wh w') = stmts (wh w) ++ [stmt] ∧ dirs (fs w') = dirs (fs w) ∧
  requests w' = requests w.
Proof.
  intros (Hr & _ & _ & _ & Hs & Hfs)%execute_inv. repeat split; try done.
  destruct Hfs as [->|(t & d & rj & ex & _ & ->)]; [done|].
  by rewrite !put_file_dirs.
Qed.

Lemma execute_Raise E stmt w e w' :
  cursor.execute E stmt w = (Raise e, w') →
  tables (wh w') = tables (wh w) ∧ e = DatabaseError stmt.
Proof.
  unfold cursor.execute. destruct (cursor.parse stmt) as [t|t d rj ex|].
  - destruct (sql_fault E stmt); [intros H; by inversion H|]. cbn.
    destruct (tables (wh w) !! t); intros H; by inversion H.
  - destruct (sql_fault E stmt); [intros H; by inversion H|]. cbn.
    destruct (tables (wh w) !! t); [|intros H; by inversion H].
    destruct (files (fs w) !! d); intros H; by inversion H.
  - intros H; by inversion H.
Qed.

Lemma execute_truncate_Ok E tbl w u w' :
  cursor.execute E ("TRUNCATE TABLE " +:+ tbl) w = (Ok u, w') →
  tables (wh w') !! tbl = Some [].
Proof.
  unfold cursor.execute. rewrite parse_truncate.
  destruct (sql_fault E _); [discriminate|]. cbn.
  destruct (tables (wh w) !! tbl); [|discriminate].
  intros H; inversion H; subst. simpl. apply lookup_insert_eq.
Qed.

Lemma load_eq E tbl d r x w :
  load E tbl d r x w =
  match cursor.execute E ("TRUNCATE TABLE " +:+ tbl) w with
  | (Raise e, w1) => (Raise e, w1)
  | (Ok _, w1) =>
      match cursor.execute E (copy_sql tbl d r x) (printed (copy_sql tbl d r x) w1) with
      | (Raise e, w2) => (Raise e, w2)
      | (Ok _, w2) => (Ok tt, completed_log tbl w2)
      end
  end.
Proof.
  unfold load. rewrite format_trunc, format_copy. unfold mbind, M_bind, lift.
  destruct (cursor.execute E ("TRUNCATE TABLE " +:+ tbl) w) as [[u|e] w1]; [|reflexivity].
  unfold print, modify at 1. fold (printed (copy_sql tbl d r x) w1).
  destruct (cursor.execute E (copy_sql tbl d r x) _) as [[u'|e] w2]; [|reflexivity].
  unfold gets. rewrite format_completed. reflexivity.
Qed.

(** The local files that a COPY statement names

    The statement is cut at its quotes, so the files that the driver writes
    are found by reading it back from its end. *)

Lemma strip_prefix_Some (p s r : string) :
  Str.strip_prefix p s = Some r → s = p +:+ r.
Proof.
  revert s. induction p as [|a p IH]; intros s; cbn [Str.strip_prefix].
  - by intros [= ->].
  - destruct s as [|b s]; [discriminate|].
    destruct (Ascii.eqb_spec a b) as [->|]; [|discriminate].
    intros ->%IH. by rewrite string_app_cons.
Qed.

Lemma split_at_Some (sep s a b : string) :
  Str.split_at sep s = Some (a, b) → s = a +:+ sep +:+ b.
Proof.
  revert a. induction s as [|c s IH]; intros a.
  - cbn [Str.split_at]. destruct (Str.strip_prefix sep EmptyString) eqn:Hp; [|discriminate].
    intros [= <- <-]. by apply strip_prefix_Some in Hp.
  - cbn [Str.split_at]. destruct (Str.strip_prefix sep (String c s)) eqn:Hp.
    + intros [= <- <-]. by apply strip_prefix_Some in Hp.
    + destruct (Str.split_at sep s) as [[l r]|]; [|discriminate].
      intros [= <- <-]. rewrite string_app_cons. f_equal. by apply IH.
Qed.

Lemma until_quote_Some (s l r : string) :
  cursor.until_quote s = Some (l, r) →
  s = l +:+ String cursor.quote r ∧ cursor.until_quote l = None.
Proof.
  revert l. induction s as [|c s IH]; intros l; cbn [cursor.until_quote]; [discriminate|].
  destruct (Ascii.eqb_spec c cursor.quote) as [->|Hc].
  - intros [= <- <-]. done.
  - destruct (cursor.until_quote s) as [[l' r']|]; [|discriminate].
    intros [= <- <-]. destruct (IH l' eq_refl) as [-> Hl]. split.
    + by rewrite string_app_cons.
    + cbn [cursor.until_quote]. rewrite Hl.
      destruct (Ascii.eqb_spec c cursor.quote); done.
Qed.

Lemma until_quote_app_None (a b : string) :
  cursor.until_quote (a +:+ b) = None ↔
  cursor.until_quote a = None ∧ cursor.until_quote b = None.
Proof.
  induction a as [|c a IH].
  - change (EmptyString +:+ b) with b. split; [done | by intros [_ ?]].
  - rewrite string_app_cons. cbn [cursor.until_quote].
    destruct (Ascii.eqb c cursor.quote); [split; [done | by intros [? _]]|].
    destruct (cursor.until_quote (a +:+ b)) as [[l r]|],
             (cursor.until_quote a) as [[l' r']|]; split; try done.
    + intros [? _]. done.
    + intros [_ Hb]. destruct IH as [_ IH]. by specialize (IH (conj eq_refl Hb)).
    + intros _. destruct IH as [IH _]. by destruct (IH eq_refl).
    + intros _. destruct IH as [IH _]. by destruct (IH eq_refl).
Qed.

Lemma quote_split_unique (u1 t1 u2 t2 : string) :
  u1 +:+ String cursor.quote t1 = u2 +:+ String cursor.quote t2 →
  cursor.until_quote t1 = None → cursor.until_quote t2 = None →
  u1 = u2 ∧ t1 = t2.
Proof.
  revert u2. induction u1 as [|c u1 IH]; intros [|c' u2] H H1 H2.
  - by injection H as ->.
  - rewrite string_app_cons in H. injection H as _ ->.
    apply until_quote_app_None in H1 as [_ H1]. discriminate.
  - rewrite string_app_cons in H. injection H as _ <-.
    apply until_quote_app_None in H2 as [_ H2]. discriminate.
  - rewrite !string_app_cons in H. injection H as -> H.
    destruct (IH _ H H1 H2) as [-> ->]. done.
Qed.

Lemma parse_copy_sound (s t d rj ex : string) :
  cursor.parse_copy s = cursor.CopyLocal t d rj ex →
  cursor.until_quote rj = None ∧ cursor.until_quote ex = None ∧
  ∃ pre,
    s = (((pre +:+ String cursor.quote rj) +:+ String cursor.quote " EXCEPTIONS ")
           +:+ String cursor.quote ex) +:+ String cursor.quote " ABORT ON ERROR DIRECT".
Proof.
  unfold cursor.parse_copy.
  destruct (Str.split_at _ s) as [[t0 s1]|] eqn:H1; [|discriminate].
  destruct (cursor.until_quote s1) as [[d0 s2]|] eqn:H2; [|discriminate].
  destruct (Str.strip_prefix _ s2) as [s3|] eqn:H3; [|discriminate].
  destruct (cursor.until_quote s3) as [[rj0 s4]|] eqn:H4; [|discriminate].
  destruct (Str.strip_prefix _ s4) as [s5|] eqn:H5; [|discriminate].
  destruct (cursor.until_quote s5) as [[ex0 s6]|] eqn:H6; [|discriminate].
  destruct (String.eqb_spec s6 " ABORT ON ERROR DIRECT") as [->|]; [|discriminate].
  intros [= <- <- <- <-].
  apply split_at_Some in H1 as ->.
  apply until_quote_Some in H2 as [-> _].
  apply strip_prefix_Some in H3 as ->.
  apply until_quote_Some in H4 as [-> Hrj].
  apply strip_prefix_Some in H5 as ->.
  apply until_quote_Some in H6 as [-> Hex].
  split; [done|]. split; [done|].
  exists (t0 +:+ " FROM LOCAL '" +:+ d0 +:+ "' DELIMITER ',' SKIP 1 REJECTED DATA ").
  rewrite !string_app_assoc. reflexivity.
Qed.

Lemma copy_sql_shape (tbl d r x : string) :
  copy_sql tbl d r x =
  "COPY " +:+
  (((((tbl +:+ " FROM LOCAL '" +:+ d +:+ "' DELIMITER ',' SKIP 1 REJECTED DATA ")
        +:+ String cursor.quote r) +:+ String cursor.quote " EXCEPTIONS ")
      +:+ String cursor.quote x) +:+ String cursor.quote " ABORT ON ERROR DIRECT").
Proof. unfold copy_sql. rewrite !string_app_assoc. reflexivity. Qed.

Lemma parse_copy_sql_sidecars (tbl d r x t d' rj ex : string) :
  cursor.parse (copy_sql tbl d r x) = cursor.CopyLocal t d' rj ex →
  cursor.until_quote rj = None ∧ cursor.until_quote ex = None ∧
  (cursor.until_quote r = None → cursor.until_quote x = None → rj = r ∧ ex = x).
Proof.
  rewrite copy_sql_shape.
  change (cursor.parse ("COPY " +:+ ?s)) with (cursor.parse_copy s).
  intros (Hrj & Hex & pre & H)%parse_copy_sound.
  split; [done|]. split; [done|]. intros Hr Hx.
  apply quote_split_unique in H as [H _]; [|done|done].
  apply quote_split_unique in H as [H <-]; [|done|done].
  apply quote_split_unique in H as [H _]; [|done|done].
  apply quote_split_unique in H as [_ <-]; done.
Qed.

Lemma string_app_inv_head (a b c : string) : a +:+ b = a +:+ c → b = c.
Proof.
  induction a as [|x a IH]; [done|].
  rewrite !string_app_cons. intros [= H]. by apply IH.
Qed.

Lemma path_join_plain (p b : string) :
  p ≠ EmptyString → Str.starts_with_char os.slash b = false →
  os.path_join p b = (if Str.ends_with_char os.slash p then p else p +:+ "/") +:+ b.
Proof.
  intros Hp Hb. unfold os.path_join. rewrite Hb.
  destruct p as [|c p]; [done|].
  destruct (Str.ends_with_char os.slash (String c p)); [reflexivity|].
  by rewrite string_app_assoc.
Qed.

Lemma path_join_quote_free (lp b : string) :
  Str.starts_with_char os.slash b = false →
  cursor.until_quote (os.path_join lp b) = None ↔
  cursor.until_quote lp = None ∧ cursor.until_quote b = None.
Proof.
  intros Hb. destruct (decide (lp = EmptyString)) as [->|Hp].
  - unfold os.path_join. rewrite Hb. split; [done | by intros [_ ?]].
  - rewrite path_join_plain by done. rewrite until_quote_app_None.
    destruct (Str.ends_with_char os.slash lp); [done|].
    rewrite until_quote_app_None. split; [by intros [[? _] ?] | by intros [? ?]].
Qed.

Lemma path_join_inj (lp b c : string) :
  Str.starts_with_char os.slash b = false →
  Str.starts_with_char os.slash c = false →
  os.path_join lp b = os.path_join lp c → b = c.
Proof.
  intros Hb Hc. destruct (decide (lp = EmptyString)) as [->|Hp].
  - unfold os.path_join. by rewrite Hb, Hc.
  - rewrite !path_join_plain by done. apply string_app_inv_head.
Qed.

Lemma sidecars_miss_output (lp tbl t d rj ex : string) :
  cursor.parse (copy_sql tbl (os.path_join lp default_filename)
                  (os.path_join lp "rejects") (os.path_join lp "exceptions"))
    = cursor.CopyLocal t d rj ex →
  rj ≠ os.path_join lp default_filename ∧ ex ≠ os.path_join lp default_filename.
Proof.
  intros (Hrj & Hex & Hsame)%parse_copy_sql_sidecars.
  assert (cursor.until_quote (os.path_join lp default_filename) = None →
          rj = os.path_join lp "rejects" ∧ ex = os.path_join lp "exceptions") as Hfree.
  { intros [Hlp _]%path_join_quote_free; [|reflexivity].
    apply Hsame; by apply path_join_quote_free. }
  split; intros Heq.
  - rewrite Heq in Hrj. destruct (Hfree Hrj) as [Hr _]. rewrite Heq in Hr.
    by apply path_join_inj in Hr.
  - rewrite Heq in Hex. destruct (Hfree Hex) as [_ Hx]. rewrite Heq in Hx.
    by apply path_join_inj in Hx.
Qed.

Lemma put_file_lookup_ne (path q : string) content f :
  path ≠ q → files (cursor.put_file path content f) !! q = files f !! q.
Proof. intros Hne. destruct content; [apply lookup_insert_ne, Hne | reflexivity]. Qed.

Lemma execute_files E stmt w r w' (q : string) :
  cursor.execute E stmt w = (r, w') →
  (∀ t d rj ex, cursor.parse stmt = cursor.CopyLocal t d rj ex → rj ≠ q ∧ ex ≠ q) →
  files (fs w') !! q = files (fs w) !! q.
Proof.
  intros (_ & _ & _ & _ & _ & [->|(t & d & rj & ex & Hp & ->)])%execute_inv Hq; [done|].
  destruct (Hq _ _ _ _ Hp). by rewrite !put_file_lookup_ne.
Qed.

Lemma execute_truncate_fs E tbl w r w' :
  cursor.execute E ("TRUNCATE TABLE " +:+ tbl) w = (r, w') → fs w' = fs w.
Proof.
  intros (_ & _ & _ & _ & _ & [->|(t & d & rj & ex & Hp & _)])%execute_inv; [done|].
  rewrite parse_truncate in Hp. discriminate.
Qed.

(** ** The command *)

Lemma connect_eq E dsn w :
  connect E dsn w =
  if odbc_accepts E ("DSN=" +:+ dsn)
  then (Ok tt, connected ("DSN=" +:+ dsn) w)
  else (Raise (DatabaseError ("DSN=" +:+ dsn)), w).
Proof. unfold connect. destruct (odbc_accepts E _); reflexivity. Qed.

Lemma collect_eq E a lp w :
  collect E a lp w =
  match merge_apps E (apps a) (token a) w with
  | (Ok df, w1) => write_to_file E df lp default_filename w1
  | (Raise e, w1) => (Raise e, w1)
  end.
Proof. reflexivity. Qed.

Lemma adjust_cmd_eq E cfg w :
  adjust_cmd E cfg w =
  match load_settings E cfg with
  | Raise e => (Raise e, w)
  | Ok s =>
      match connect E (dsn (vertica s)) w with
      | (Raise e, w1) => (Raise e, w1)
      | (Ok _, w1) =>
          match collect E (adjust s) (load_path s) w1 with
          | (Raise e, w2) => (Raise e, w2)
          | (Ok output_file, w2) =>
              load E (table (vertica s)) output_file
                (os.path_join (load_path s) "rejects")
                (os.path_join (load_path s) "exceptions") w2
          end
      end
  end.
Proof.
  unfold adjust_cmd, mbind, M_bind, lift.
  destruct (load_settings E cfg) as [s|e]; reflexivity.
Qed.

(** ** The claims about the URL *)

(** C5: [build_dau_url] applied to the app key [abc123] and the token [tok]
    returns exactly the URL of the specification. *)
Theorem build_dau_url_abc123_tok :
  build_dau_url "abc123" "tok" =
  Ok "https://api.adjust.com/kpis/v1/abc123.csv?user_token=tok&kpis=daus,waus,maus,installs&start_date=2000-01-01&end_date=2030-01-01&grouping=day,os_names&os_names=android,ios".
Proof. reflexivity. Qed.

(** C10: [build_dau_url] neither encodes nor validates its arguments.  For
    every app key [k] and token [t] it returns, without raising, the literal
    concatenation of the fixed parts of the URL with [k] and [t]; reserved
    characters in [k] or [t] therefore reach the URL verbatim, as for the key
    [a/b?c] and the token [x&kpis=none]. *)
Theorem build_dau_url_verbatim (k t : string) :
  build_dau_url k t =
  Ok ("https://api.adjust.com/kpis/v1/" +:+ k +:+ ".csv?user_token=" +:+ t +:+
      "&kpis=daus,waus,maus,installs&start_date=2000-01-01&end_date=2030-01-01&grouping=day,os_names&os_names=android,ios")
  ∧ build_dau_url "a/b?c" "x&kpis=none" =
    Ok "https://api.adjust.com/kpis/v1/a/b?c.csv?user_token=x&kpis=none&kpis=daus,waus,maus,installs&start_date=2000-01-01&end_date=2030-01-01&grouping=day,os_names&os_names=android,ios".
Proof. split; [apply build_dau_url_eq | reflexivity]. Qed.

(** ** The claims about the fetcher *)

(** C2, as stated, fails: a body of one data row and no header line gives a
    table without rows, because [header=0] makes [read_csv] consume the first
    line of the body as the header. *)
Lemma collect_app_consumes_first_line :
  let body := [Sample.day "2019-01-01" (Int 5)] in
  let E := Sample.serving (λ _, Some body) Sample.config (λ _, false) in
  http_get E "u" = Some body ∧
  length body = 1%nat ∧
  (collect_app E "firefox" "u" Sample.idle).1 = Ok [].
Proof. repeat split. Qed.

(** C2, amended: the first line of the body is the header and is dropped;
    for every response with a first line followed by [N] data rows whose
    installs fields are missing or integers of magnitude at most 2^53, the
    table has exactly the [N] data rows, in the order of the body, each with
    the five other columns as read, the installs as an integer (0 for a
    missing value) and the app name as seventh column. *)
Theorem collect_app_keeps_rows_after_header E app_name url hdr data w :
  http_get E url = Some (hdr :: data) →
  forallb (λ l, pd.exact (l_installs l)) data = true →
  ∃ df w',
    collect_app E app_name url w = (Ok df, w') ∧
    length df = length data ∧
    Forall2 (row_of app_name) data df ∧
    Forall2 (λ l r, installs r = Int (filled (l_installs l))) data df.
Proof.
  intros Hget Hex.
  pose proof (collect_app_exact E app_name url (hdr :: data) w Hget Hex) as Hc.
  eexists _, _. split; [exact Hc|].
  apply collect_app_Ok_inv in Hc as (body & Hget' & Hrows & _).
  rewrite Hget in Hget'. injection Hget' as <-.
  split; [symmetry; by eapply Forall2_length|]. split; [exact Hrows|].
  apply installs_of_table.
Qed.

Lemma collect_app_keeps_rows_after_header_witness :
  let E := Sample.serving (λ _, Some (Sample.header :: Sample.three)) Sample.config
             (λ _, false) in
  http_get E "u" = Some (Sample.header :: Sample.three) ∧
  forallb (λ l, pd.exact (l_installs l)) Sample.three = true ∧
  ∃ df w',
    collect_app E "firefox" "u" Sample.idle = (Ok df, w') ∧
    length df = length Sample.three ∧
    Forall2 (row_of "firefox") Sample.three df ∧
    Forall2 (λ l r, installs r = Int (filled (l_installs l))) Sample.three df.
Proof.
  intros E. split; [reflexivity|]. split; [reflexivity|].
  apply (collect_app_keeps_rows_after_header E "firefox" "u" Sample.header Sample.three);
    reflexivity.
Defined.

(** C3, as stated, fails: a negative installs value of the response is kept
    as it is. *)
Lemma collect_app_keeps_negative_installs :
  let body := [Sample.header; Sample.day "2019-01-01" (Int (-4))] in
  let E := Sample.serving (λ _, Some body) Sample.config (λ _, false) in
  is_ok (collect_app E "firefox" "u" Sample.idle).1 = true ∧
  installs <$> Sample.table_of (collect_app E "firefox" "u" Sample.idle).1 = [Int (-4)].
Proof. split; reflexivity. Qed.

(** C3, amended: every installs value of a table that [collect_app] returns,
    and of a table that [merge_apps] returns, is an integer and never null;
    its sign is not checked.  A response whose installs fields are missing
    or integers of magnitude at most 2^53 does give a table, in which a
    missing value has become 0 and an integer is kept. *)
Theorem installs_integer_never_null E :
  (∀ app_name url w df w1,
     collect_app E app_name url w = (Ok df, w1) →
     Forall (λ r, ∃ z, installs r = Int z) df) ∧
  (∀ apps tok w merged w1,
     merge_apps E apps tok w = (Ok merged, w1) →
     Forall (λ r, ∃ z, installs r = Int z) merged) ∧
  (∀ app_name url body w,
     http_get E url = Some body →
     forallb (λ l, pd.exact (l_installs l)) (drop 1 body) = true →
     ∃ df w1,
       collect_app E app_name url w = (Ok df, w1) ∧
       Forall2 (λ l r, installs r = Int (filled (l_installs l))) (drop 1 body) df).
Proof.
  assert (∀ c, is_int c = true → ∃ z, c = Int z) as Hint.
  { intros [|z|q|s]; try discriminate. eauto. }
  split; [|split].
  - intros app_name url w df w1 Hc.
    apply collect_app_Ok_inv in Hc as (body & _ & Hrows & _).
    induction Hrows as [|l r data df Hr _ IH]; constructor; [|done].
    by eapply Hint, row_of_int.
  - intros apps tok w merged w1 Hm. rewrite merge_apps_eq in Hm.
    destruct (merge_loop E (dict_iter apps) tok [] w) as [[frames|e] w'] eqn:Hl;
      [|discriminate].
    apply merge_loop_int in Hl; [|constructor].
    destruct frames as [|f frames]; [discriminate|].
    inversion Hm; subst. apply (Forall_join _ (f :: frames)).
    eapply Forall_impl; [exact Hl|]. intros fr Hfr.
    eapply Forall_impl; [exact Hfr|]. intros r Hr. by apply Hint.
  - intros app_name url body w Hget Hex.
    eexists _, _. split; [by apply collect_app_exact|]. apply installs_of_table.
Qed.

Lemma installs_integer_never_null_witness :
  let body := Sample.header :: Sample.three in
  let E := Sample.serving (λ _, Some body) Sample.config (λ _, false) in
  let df := Sample.table_of (collect_app E "firefox" "u" Sample.idle).1 in
  let merged :=
    Sample.table_of (merge_apps E [("fx", "abc123")] "abcdefg" Sample.idle).1 in
  (collect_app E "firefox" "u" Sample.idle =
     (Ok df, (collect_app E "firefox" "u" Sample.idle).2) ∧
   Forall (λ r, ∃ z, installs r = Int z) df) ∧
  (merge_apps E [("fx", "abc123")] "abcdefg" Sample.idle =
     (Ok merged, (merge_apps E [("fx", "abc123")] "abcdefg" Sample.idle).2) ∧
   Forall (λ r, ∃ z, installs r = Int z) merged) ∧
  (http_get E "u" = Some body ∧
   forallb (λ l, pd.exact (l_installs l)) (drop 1 body) = true ∧
   ∃ df' w1,
     collect_app E "firefox" "u" Sample.idle = (Ok df', w1) ∧
     Forall2 (λ l r, installs r = Int (filled (l_installs l))) (drop 1 body) df').
Proof.
  intros body E df merged.
  destruct (installs_integer_never_null E) as (Hfetch & Hmerge & Hnull).
  split; [|split].
  - split; [reflexivity|].
    apply (Hfetch "firefox" "u" Sample.idle df
             (collect_app E "firefox" "u" Sample.idle).2). reflexivity.
  - split; [reflexivity|].
    apply (Hmerge [("fx", "abc123")] "abcdefg" Sample.idle merged
             (merge_apps E [("fx", "abc123")] "abcdefg" Sample.idle).2). reflexivity.
  - split; [reflexivity|]. split; [reflexivity|].
    apply (Hnull "firefox" "u" body Sample.idle); reflexivity.
Defined.

(** Beyond these fields the outcome is numpy's: where its cast of 2^64
    raises [OverflowError], [collect_app] raises it after its request and
    returns no table. *)
Example collect_app_installs_out_of_range :
  let body := [Sample.header; Sample.day "2019-01-01" (Int (2 ^ 64))] in
  let E := Env (λ _, Some body) (λ _ _, Raise (OverflowError "int too big to convert"))
             Sample.print_cell (λ _, Ok Sample.config)
             (λ _, true) (λ _, false) (λ _, None) (λ _, (None, None)) in
  collect_app E "firefox" "u" Sample.idle =
    (Raise (OverflowError "int too big to convert"), requested "u" Sample.idle).
Proof. reflexivity. Qed.

(** ** The claims about the merger *)

(** C1: the loop of [merge_apps] iterates [iter(apps)], the names of the
    mapping, and unpacks each name into [app, key].  On the mapping of the
    docstring of [adjust_cmd] it raises [ValueError] before any fetch; on a
    name of two characters it fetches for the first character, from the URL
    of the second character, and never reads the API key. *)
Theorem merge_apps_unpacks_names E w :
  merge_apps E [("firefox", "abc123"); ("focus", "abc123")] "abcdefg" w =
    (Raise (ValueError "too many values to unpack (expected 2)"), w)
  ∧ requests (merge_apps E [("fx", "abc123")] "abcdefg" w).2 =
    requests w ++ [Sample.url_of "x"].
Proof.
  split; [reflexivity|].
  rewrite merge_apps_eq. unfold dict_iter. cbn [fmap list_fmap fst].
  rewrite merge_loop_cons. cbn [unpack2]. rewrite build_dau_url_eq.
  destruct (collect_app E _ _ w) as [[df|e] w1] eqn:Hc;
    apply collect_app_frame in Hc as (_ & _ & _ & _ & Hreq); exact Hreq.
Qed.

(** C6: with two configured apps whose reports have three and five rows,
    [merge_apps] raises [ValueError] without a request and returns no table;
    were the names two characters long, the table would have eight rows, each
    labelled with the first character of a name and read from the URL of the
    second character. *)
Theorem merge_apps_two_apps_raises :
  let E := Sample.serving (Sample.two_apps "abc123" "def456") Sample.config (λ _, false) in
  let E' := Sample.serving (Sample.two_apps "x" "c") Sample.config (λ _, false) in
  merge_apps E [("firefox", "abc123"); ("focus", "def456")] "abcdefg" Sample.idle =
    (Raise (ValueError "too many values to unpack (expected 2)"), Sample.idle)
  ∧ length (Sample.table_of
      (merge_apps E' [("fx", "abc123"); ("fc", "def456")] "abcdefg" Sample.idle).1) = 8%nat
  ∧ app <$> Sample.table_of
      (merge_apps E' [("fx", "abc123"); ("fc", "def456")] "abcdefg" Sample.idle).1 =
    ["f"; "f"; "f"; "f"; "f"; "f"; "f"; "f"]
  ∧ requests (merge_apps E' [("fx", "abc123"); ("fc", "def456")] "abcdefg" Sample.idle).2 =
    [Sample.url_of "x"; Sample.url_of "c"].
Proof. repeat split. Qed.

(** C8: when a fetch of the loop raises, [merge_apps] raises the same
    exception after that single request, and the run ends with it: no table,
    the file system as it was, no statement handed to the cursor. *)
Theorem fetch_error_aborts_run E cfg s w wc pre name key post frames w1 a k url e w2 :
  load_settings E cfg = Ok s →
  connect E (dsn (vertica s)) w = (Ok tt, wc) →
  apps (adjust s) = pre ++ (name, key) :: post →
  merge_loop E (dict_iter pre) (token (adjust s)) [] wc = (Ok frames, w1) →
  unpack2 name = Ok (a, k) →
  build_dau_url k (token (adjust s)) = Ok url →
  collect_app E a url w1 = (Raise e, w2) →
  merge_apps E (apps (adjust s)) (token (adjust s)) wc = (Raise e, w2) ∧
  adjust_cmd E cfg w = (Raise e, w2) ∧
  requests w2 = requests w1 ++ [url] ∧
  fs w2 = fs w ∧
  wh w2 = wh w.
Proof.
  intros Hs Hconn Happs Hpre Hun Hurl Hc.
  assert (merge_apps E (apps (adjust s)) (token (adjust s)) wc = (Raise e, w2)) as Hm.
  { rewrite merge_apps_eq, Happs. unfold dict_iter in *. rewrite fmap_app, fmap_cons.
    rewrite merge_loop_app, Hpre. cbn [fst]. rewrite merge_loop_cons, Hun, Hurl, Hc.
    reflexivity. }
  split; [exact Hm|]. split.
  { rewrite adjust_cmd_eq, Hs, Hconn, collect_eq, Hm. reflexivity. }
  apply collect_app_frame in Hc as (Hfs2 & Hwh2 & _ & _ & Hreq).
  apply merge_loop_frame in Hpre as (Hfs1 & Hwh1 & _ & _).
  split; [exact Hreq|].
  rewrite connect_eq in Hconn. destruct (odbc_accepts E _); [|discriminate].
  inversion Hconn; subst wc. rewrite Hfs2, Hwh2, Hfs1, Hwh1. done.
Qed.

Lemma fetch_error_aborts_run_witness :
  let s := Settings "/tmp/adjust_daus"
             (VerticaSettings "vertica" "adjust_daily_active_users")
             (AdjustSettings "abcdefg" [("fx", "abc123")]) in
  let E := Sample.serving (λ _, None) s (λ _, false) in
  let wc := connected "DSN=vertica" Sample.idle in
  let url := Sample.url_of "x" in
  let e := URLError url in
  let w2 := requested url wc in
  (load_settings E "adjust.yml" = Ok s ∧
   connect E (dsn (vertica s)) Sample.idle = (Ok tt, wc) ∧
   apps (adjust s) = [] ++ ("fx", "abc123") :: [] ∧
   merge_loop E (dict_iter []) (token (adjust s)) [] wc = (Ok [], wc) ∧
   unpack2 "fx" = Ok ("f", "x") ∧
   build_dau_url "x" (token (adjust s)) = Ok url ∧
   collect_app E "f" url wc = (Raise e, w2)) ∧
  merge_apps E (apps (adjust s)) (token (adjust s)) wc = (Raise e, w2) ∧
  adjust_cmd E "adjust.yml" Sample.idle = (Raise e, w2) ∧
  requests w2 = requests wc ++ [url] ∧
  fs w2 = fs Sample.idle ∧
  wh w2 = wh Sample.idle.
Proof.
  intros s E wc url e w2. split; [repeat split|].
  apply (fetch_error_aborts_run E "adjust.yml" s Sample.idle wc [] "fx" "abc123" []
           [] wc "f" "x" url e w2); reflexivity.
Defined.

(** C9: for an empty app mapping [merge_apps] raises the [ValueError] of
    [pd.concat] on an empty list instead of returning an empty table, and the
    run ends in an exception with the file system and the warehouse as they
    were. *)
Theorem empty_mapping_aborts E cfg s w :
  load_settings E cfg = Ok s →
  apps (adjust s) = [] →
  merge_apps E [] (token (adjust s)) w =
    (Raise (ValueError "No objects to concatenate"), w) ∧
  ∃ e w',
    adjust_cmd E cfg w = (Raise e, w') ∧
    e = (if odbc_accepts E ("DSN=" +:+ dsn (vertica s))
         then ValueError "No objects to concatenate"
         else DatabaseError ("DSN=" +:+ dsn (vertica s))) ∧
    requests w' = requests w ∧
    fs w' = fs w ∧
    wh w' = wh w.
Proof.
  intros Hs Happs. split; [reflexivity|].
  rewrite adjust_cmd_eq, Hs, connect_eq.
  destruct (odbc_accepts E _).
  - rewrite collect_eq, Happs. cbn. eexists _, _. repeat split.
  - eexists _, _. repeat split.
Qed.

Lemma empty_mapping_aborts_witness :
  let s := Settings "/tmp/adjust_daus"
             (VerticaSettings "vertica" "adjust_daily_active_users")
             (AdjustSettings "abcdefg" []) in
  let E := Sample.serving (λ _, None) s (λ _, false) in
  (load_settings E "adjust.yml" = Ok s ∧ apps (adjust s) = []) ∧
  merge_apps E [] (token (adjust s)) Sample.idle =
    (Raise (ValueError "No objects to concatenate"), Sample.idle) ∧
  ∃ e w',
    adjust_cmd E "adjust.yml" Sample.idle = (Raise e, w') ∧
    e = (if odbc_accepts E ("DSN=" +:+ dsn (vertica s))
         then ValueError "No objects to concatenate"
         else DatabaseError ("DSN=" +:+ dsn (vertica s))) ∧
    requests w' = requests Sample.idle ∧
    fs w' = fs Sample.idle ∧
    wh w' = wh Sample.idle.
Proof.
  intros s E. split; [split; reflexivity|].
  apply (empty_mapping_aborts E "adjust.yml" s Sample.idle); reflexivity.
Defined.

(** ** The claim about the file writer *)



(** In that run the call creates [/tmp] and [/tmp/adjust_daus], and the
    second line of the file is the first row with its fields between
    commas; a missing field is written as the empty text. *)
Example write_to_file_sample_run :
  let E := Sample.serving (λ _, None) Sample.config (λ _, false) in
  let df := with_app "firefox" <$> Sample.three in
  let w1 := (write_to_file E df "/tmp/adjust_daus" "output.csv" Sample.idle).2 in
  elements (dirs (fs w1)) = ["/tmp/adjust_daus"; "/tmp"] ∧
  files (fs w1) !! "/tmp/adjust_daus/output.csv" =
    Some ["adj_date,os,daus,waus,maus,installs,app";
          "2019-01-01,android,10,20,30,1,firefox";
          "2019-01-02,android,10,20,30,,firefox";
          "2019-01-03,android,10,20,30,3,firefox"].
Proof. split; vm_compute; reflexivity. Qed.

(** A target that ends in [..] is outside the claim: below a directory
    that is missing, [os.makedirs] creates that directory and then finds
    the target present. *)
Example write_to_file_dotdot_target :
  let E := Sample.serving (λ _, None) Sample.config (λ _, false) in
  target_dir E (fs Sample.idle) "new/.." = false ∧
  write_to_file E [] "new/.." "output.csv" Sample.idle =
    (Raise (FileExistsError "new/.."), with_dirs {["new"]} Sample.idle) ∧
  (write_to_file E [] "new/.." "output.csv" (with_dirs {["new"]} Sample.idle)).1 =
    Ok "new/../output.csv".
Proof. repeat split; vm_compute; reflexivity. Qed.

(** ** The claim about the loader *)

(** C4: [load] hands the TRUNCATE statement to the cursor first and the COPY
    statement after it, never the COPY statement alone.  When the COPY
    statement was reached and [load] raised, the error is that of the COPY
    statement and the target table is empty: the truncate is not undone. *)
Theorem load_truncates_before_copy E tbl d r x w res w' :
  load E tbl d r x w = (res, w') →
  let trunc := "TRUNCATE TABLE " +:+ tbl in
  let copy := "COPY " +:+ tbl +:+ " FROM LOCAL '" +:+ d +:+
              "' DELIMITER ',' SKIP 1 REJECTED DATA '" +:+ r +:+
              "' EXCEPTIONS '" +:+ x +:+ "' ABORT ON ERROR DIRECT" in
  (stmts (wh w') = stmts (wh w) ++ [trunc] ∧
   res = Raise (DatabaseError trunc) ∧
   tables (wh w') = tables (wh w))
  ∨ (stmts (wh w') = stmts (wh w) ++ [trunc; copy] ∧
     (res = Ok tt ∨
      (res = Raise (DatabaseError copy) ∧ tables (wh w') !! tbl = Some []))).
Proof.
  intros Hl trunc copy. rewrite load_eq in Hl. fold trunc in Hl.
  change (copy_sql tbl d r x) with copy in Hl.
  destruct (cursor.execute E trunc w) as [[u|e] w1] eqn:H1.
  - right. pose proof (execute_stmts _ _ _ _ _ H1) as (Hs1 & _ & _).
    apply execute_truncate_Ok in H1.
    destruct (cursor.execute E copy (printed copy w1)) as [[u'|e] w2] eqn:H2;
      pose proof (execute_stmts _ _ _ _ _ H2) as (Hs2 & _ & _);
      inversion Hl; subst res w'.
    + split; [|by left]. cbn [completed_log set_log wh]. rewrite Hs2. cbn.
      rewrite Hs1, <- app_assoc. reflexivity.
    + apply execute_Raise in H2 as (Ht & ->).
      split; [rewrite Hs2; cbn; rewrite Hs1, <- app_assoc; reflexivity|].
      right. split; [reflexivity|]. rewrite Ht. exact H1.
  - left. pose proof (execute_stmts _ _ _ _ _ H1) as (Hs1 & _ & _).
    apply execute_Raise in H1 as (Ht & ->). inversion Hl; subst res w'. done.
Qed.

Lemma load_truncates_before_copy_witness :
  let E := Sample.serving (λ _, None) Sample.config Sample.copy_fails in
  let tbl := "adjust_daily_active_users" in
  let d := "/tmp/adjust_daus/output.csv" in
  let r := "/tmp/adjust_daus/rejects" in
  let x := "/tmp/adjust_daus/exceptions" in
  let trunc := "TRUNCATE TABLE " +:+ tbl in
  let copy := "COPY " +:+ tbl +:+ " FROM LOCAL '" +:+ d +:+
              "' DELIMITER ',' SKIP 1 REJECTED DATA '" +:+ r +:+
              "' EXCEPTIONS '" +:+ x +:+ "' ABORT ON ERROR DIRECT" in
  ∃ res w',
    load E tbl d r x Sample.stocked = (res, w') ∧
    ((stmts (wh w') = stmts (wh Sample.stocked) ++ [trunc] ∧
      res = Raise (DatabaseError trunc) ∧
      tables (wh w') = tables (wh Sample.stocked))
     ∨ (stmts (wh w') = stmts (wh Sample.stocked) ++ [trunc; copy] ∧
        (res = Ok tt ∨
         (res = Raise (DatabaseError copy) ∧ tables (wh w') !! tbl = Some [])))).
Proof.
  intros E tbl d r x trunc copy.
  pose (res := (load E tbl d r x Sample.stocked).1).
  pose (w' := (load E tbl d r x Sample.stocked).2).
  exists res, w'. split; [reflexivity|].
  apply (load_truncates_before_copy E tbl d r x Sample.stocked res w'). reflexivity.
Defined.

(** On that run the COPY statement raises, and the row that the table held
    is gone. *)
Example load_failing_copy_empties_table :
  let E := Sample.serving (λ _, None) Sample.config Sample.copy_fails in
  let run := load E "adjust_daily_active_users" "/tmp/adjust_daus/output.csv"
               "/tmp/adjust_daus/rejects" "/tmp/adjust_daus/exceptions" Sample.stocked in
  tables (wh Sample.stocked) !! "adjust_daily_active_users" =
    Some ["2018-12-31,android,9,19,29,0,firefox"] ∧
  is_ok run.1 = false ∧
  length (stmts (wh run.2)) = 2%nat ∧
  tables (wh run.2) !! "adjust_daily_active_users" = Some [].
Proof. repeat split. Qed.

(** * Further properties of the collector *)

(** ** The merger as it iterates *)

Lemma merge_loop_Ok_inv E items tok frames w out w' :
  merge_loop E items tok frames w = (Ok out, w') →
  ∃ new urls,
    out = frames ++ new ∧
    Forall2 (fetched_for E tok) items new ∧
    Forall2 (λ item url, item_url tok item = Ok url) items urls ∧
    requests w' = requests w ++ urls.
Proof.
  revert frames w. induction items as [|item items IH]; intros frames w.
  - intros H; inversion H; subst. exists [], [].
    rewrite !app_nil_r. repeat split; constructor.
  - rewrite merge_loop_cons.
    destruct (unpack2 item) as [[a k]|e] eqn:Hun; [|discriminate].
    destruct (build_dau_url k tok) as [url|e] eqn:Hurl; [|discriminate].
    destruct (collect_app E a url w) as [[df|e] w1] eqn:Hc; [|discriminate].
    intros H. apply IH in H as (new & urls & -> & Hnew & Hurls & Hreq).
    pose proof (collect_app_frame _ _ _ _ _ _ Hc) as (_ & _ & _ & _ & Hreq1).
    pose proof (collect_app_Ok_inv _ _ _ _ _ _ Hc) as (body & Hget & Hrows & _).
    exists (df :: new), (url :: urls). split; [by rewrite <- app_assoc|].
    split; [|split].
    + constructor; [|done].
      destruct item as [|x [|y [|z item]]]; try discriminate.
      inversion Hun; subst. exists x, y, url, body.
      repeat split; try done. by apply (collect_app_Ok_exact _ _ _ _ _ _ _ Hc).
    + constructor; [|done]. unfold item_url. by rewrite Hun.
    + rewrite Hreq, Hreq1, <- app_assoc. reflexivity.
Qed.

Lemma merge_loop_bad_item E items tok frames w :
  forallb two_chars items = false →
  is_ok (merge_loop E items tok frames w).1 = false.
Proof.
  revert frames w. induction items as [|item items IH]; intros frames w; [discriminate|].
  intros H. rewrite merge_loop_cons.
  destruct (unpack2 item) as [[a k]|e] eqn:Hun; [|reflexivity].
  destruct (build_dau_url k tok) as [url|e]; [|reflexivity].
  destruct (collect_app E a url w) as [[df|e] w1]; [|reflexivity].
  apply IH. destruct item as [|x [|y [|z item]]]; try discriminate. exact H.
Qed.


(** X1: [merge_apps] returns a table only when every app name of the mapping
    has exactly two characters; with any other name in the mapping it raises,
    whatever the network answers. *)
Theorem merge_apps_raises_on_other_names E apps tok w :
  forallb two_chars (dict_iter apps) = false →
  ∃ e w', merge_apps E apps tok w = (Raise e, w').
Proof.
  intros H. apply (merge_loop_bad_item E _ tok [] w) in H.
  rewrite merge_apps_eq.
  destruct (merge_loop E (dict_iter apps) tok [] w) as [[frames|e] w1];
    [discriminate | eauto].
Qed.

Lemma merge_apps_raises_on_other_names_witness :
  let E := Sample.serving (Sample.two_apps "abc123" "def456") Sample.config (λ _, false) in
  forallb two_chars (dict_iter (apps (adjust Sample.config))) = false ∧
  ∃ e w', merge_apps E (apps (adjust Sample.config)) "abcdefg" Sample.idle = (Raise e, w').
Proof.
  intros E. split; [reflexivity|].
  apply (merge_apps_raises_on_other_names E (apps (adjust Sample.config)) "abcdefg"
           Sample.idle).
  reflexivity.
Defined.

(** X2: a table that [merge_apps] returns is the concatenation, in the order
    of the mapping, of one frame per app name; the frame of a name is
    labelled with the first character of the name and holds the lines after
    the header of the report at the URL of its second character, and these
    URLs, in this order, are the requests that were made. *)
Theorem merge_apps_returns_frames_in_order E apps tok w merged w' :
  merge_apps E apps tok w = (Ok merged, w') →
  ∃ frames urls,
    merged = mjoin frames ∧
    Forall2 (fetched_for E tok) (dict_iter apps) frames ∧
    Forall2 (λ item url, item_url tok item = Ok url) (dict_iter apps) urls ∧
    requests w' = requests w ++ urls ∧
    apps ≠ [].
Proof.
  rewrite merge_apps_eq.
  destruct (merge_loop E (dict_iter apps) tok [] w) as [[frames|e] w1] eqn:Hl;
    [|discriminate].
  apply merge_loop_Ok_inv in Hl as (new & urls & -> & Hnew & Hurls & Hreq).
  destruct new as [|f new]; [discriminate|].
  intros H; inversion H; subst. exists (f :: new), urls.
  repeat split; try done.
  intros ->. inversion Hnew.
Qed.

Lemma merge_apps_returns_frames_in_order_witness :
  let E := Sample.serving (Sample.two_apps "x" "c") Sample.short_names (λ _, false) in
  let a := apps (adjust Sample.short_names) in
  ∃ merged w',
    merge_apps E a "abcdefg" Sample.idle = (Ok merged, w') ∧
    ∃ frames urls,
      merged = mjoin frames ∧
      Forall2 (fetched_for E "abcdefg") (dict_iter a) frames ∧
      Forall2 (λ item url, item_url "abcdefg" item = Ok url) (dict_iter a) urls ∧
      requests w' = requests Sample.idle ++ urls ∧
      a ≠ [].
Proof.
  intros E a.
  pose (merged := Sample.table_of (merge_apps E a "abcdefg" Sample.idle).1).
  pose (w' := (merge_apps E a "abcdefg" Sample.idle).2).
  exists merged, w'. split; [reflexivity|].
  apply (merge_apps_returns_frames_in_order E a "abcdefg" Sample.idle merged w').
  reflexivity.
Defined.



(** In that run the second name has no report: two requests were made, for
    the URLs of the characters [x] and [z], and none for the third name. *)
Example merge_apps_stops_at_failed_fetch :
  let E := Sample.serving (Sample.two_apps "x" "c") Sample.short_names (λ _, false) in
  let a := [("fx", "abc123"); ("zz", "none"); ("fc", "def456")] in
  let run := merge_apps E a "abcdefg" Sample.idle in
  is_ok run.1 = false ∧
  requests run.2 = [Sample.url_of "x"; Sample.url_of "z"].
Proof. split; vm_compute; reflexivity. Qed.

(** ** The fetcher at its edges *)

(** X4: whatever happens, [collect_app] makes exactly one request, for the
    URL it was given; it logs that the app was collected exactly when it
    returns a table, and it touches nothing else of the world. *)
Theorem collect_app_one_request_and_log E app_name url w r w' :
  collect_app E app_name url w = (r, w') →
  requests w' = requests w ++ [url] ∧
  log w' = log w ++ (if is_ok r then [app_name +:+ " collected"] else []) ∧
  fs w' = fs w ∧ wh w' = wh w ∧
  connections w' = connections w ∧ stdout w' = stdout w.
Proof.
  rewrite collect_app_eq.
  destruct (http_get E url) as [body|];
    try (intros H; inversion H; subst; cbn; by rewrite app_nil_r).
  destruct (pd.astype_int E _) as [col|e]; intros H; inversion H; subst; cbn;
    [done | by rewrite app_nil_r].
Qed.

Lemma collect_app_one_request_and_log_witness :
  let E := Sample.serving (λ _, Some (Sample.header :: Sample.three)) Sample.config
             (λ _, false) in
  ∃ r w',
    collect_app E "firefox" "u" Sample.stocked = (r, w') ∧
    requests w' = requests Sample.stocked ++ ["u"] ∧
    log w' = log Sample.stocked ++ (if is_ok r then ["firefox" +:+ " collected"] else []) ∧
    fs w' = fs Sample.stocked ∧ wh w' = wh Sample.stocked ∧
    connections w' = connections Sample.stocked ∧ stdout w' = stdout Sample.stocked.
Proof.
  intros E.
  pose (r := (collect_app E "firefox" "u" Sample.stocked).1).
  pose (w' := (collect_app E "firefox" "u" Sample.stocked).2).
  exists r, w'. split; [reflexivity|].
  apply (collect_app_one_request_and_log E "firefox" "u" Sample.stocked r w').
  reflexivity.
Defined.

(** X6: a response of at most one line gives an empty table, not an error:
    a single line is taken as the header, and a response without lines has
    no row either.  The app is logged as collected. *)
Theorem collect_app_short_body E app_name url body w :
  http_get E url = Some body →
  Nat.leb (length body) 1 = true →
  collect_app E app_name url w =
  (Ok [], set_log (λ l, l ++ [app_name +:+ " collected"])
            (set_requests (λ l, l ++ [url]) w)).
Proof.
  intros Hget Hlen. rewrite collect_app_eq, Hget.
  destruct body as [|hdr [|l data]]; [reflexivity | reflexivity | discriminate].
Qed.

Lemma collect_app_short_body_witness :
  let E := Sample.serving (λ _, Some [Sample.header]) Sample.config (λ _, false) in
  http_get E "u" = Some [Sample.header] ∧
  Nat.leb (length [Sample.header]) 1 = true ∧
  collect_app E "firefox" "u" Sample.idle =
    (Ok [], set_log (λ l, l ++ ["firefox" +:+ " collected"])
              (set_requests (λ l, l ++ ["u"]) Sample.idle)).
Proof.
  intros E. split; [reflexivity|]. split; [reflexivity|].
  apply (collect_app_short_body E "firefox" "u" [Sample.header] Sample.idle); reflexivity.
Defined.

(** A response without lines behaves the same. *)
Example collect_app_empty_body :
  let E := Sample.serving (λ _, Some []) Sample.config (λ _, false) in
  (collect_app E "firefox" "u" Sample.idle).1 = Ok [].
Proof. reflexivity. Qed.

(** ** The file writer beyond its target *)

Lemma write_lines_inv E path content w r w' :
  os.write_lines E path content w = (r, w') →
  (r = Ok tt ∧
   w' = set_fs (λ f, Fs (dirs f) (<[path := content]> (files f))) w) ∨
  (is_ok r = false ∧ w' = w).
Proof.
  unfold os.write_lines. destruct (os.names_dir (fs w) path); [intros H; inversion H; auto|].
  destruct (os.parent_is_dir (fs w) path); [|intros H; inversion H; auto].
  destruct (os_error E path); intros H; inversion H; auto.
Qed.

Lemma write_to_file_inv E df p fname w r w' :
  write_to_file E df p fname w = (r, w') →
  ∃ d fl,
    w' = set_fs (λ _, Fs d fl) w ∧
    dirs (fs w) ⊆ d ∧
    ((r = Ok (os.path_join p fname) ∧
      fl = <[os.path_join p fname := pd.to_csv_lines E df]> (files (fs w)))
     ∨ (is_ok r = false ∧ fl = files (fs w))).
Proof.
  assert (w = set_fs (λ _, Fs (dirs (fs w)) (files (fs w))) w) as Hsame
    by (by destruct w as [? ? [] ? ? ?]).
  unfold write_to_file, os.path_exists, gets, mbind, M_bind.
  destruct (negb (os.names_dir (fs w) p || os.is_file (fs w) p)).
  - destruct (os.makedirs E p w) as [[u|e] w1] eqn:Hmk;
      apply makedirs_grows in Hmk as (d & -> & Hd).
    + unfold to_csv.
      destruct (os.write_lines _ _ _ _) as [[u'|e] w2] eqn:Hwr;
        apply write_lines_inv in Hwr as [[Hr' ->]|[Hr' ->]]; try discriminate;
        intros H; injection H as <- <-;
        eexists d, _; (split; [reflexivity|]); (split; [done|]); auto.
    + intros H; injection H as <- <-. exists d, (files (fs w)).
      split; [reflexivity|]. split; [done|]. by right.
  - unfold mret at 1, M_ret. unfold to_csv.
    destruct (os.write_lines _ _ _ _) as [[u'|e] w2] eqn:Hwr;
      apply write_lines_inv in Hwr as [[Hr' ->]|[Hr' ->]]; try discriminate;
      intros H; injection H as <- <-.
    + eexists _, _. split; [reflexivity|]. cbn. split; [done|]. auto.
    + exists (dirs (fs w)), (files (fs w)).
      split; [exact Hsame|]. split; [done|]. by right.
Qed.






(** X9: with an empty [load_path], which never exists, [write_to_file]
    raises the [FileNotFoundError] of [os.makedirs] and writes nothing, for
    every table and file name. *)
Theorem write_to_file_empty_load_path E df fname w :
  os.is_dir (fs w) EmptyString || os.is_file (fs w) EmptyString = false →
  write_to_file E df EmptyString fname w = (Raise (FileNotFoundError EmptyString), w).
Proof.
  intros H. unfold write_to_file, os.path_exists, gets, mbind, M_bind.
  rewrite names_dir_plain, H by reflexivity. reflexivity.
Qed.

Lemma write_to_file_empty_load_path_witness :
  let E := Sample.serving (λ _, None) Sample.config (λ _, false) in
  os.is_dir (fs Sample.stocked) EmptyString || os.is_file (fs Sample.stocked) EmptyString
    = false ∧
  write_to_file E [] EmptyString "output.csv" Sample.stocked =
    (Raise (FileNotFoundError EmptyString), Sample.stocked).
Proof.
  intros E. split; [reflexivity|].
  apply (write_to_file_empty_load_path E [] "output.csv" Sample.stocked). reflexivity.
Defined.

(** ** The loader and the command as a whole *)

Lemma load_inv E tbl d r x w res w' :
  load E tbl d r x w = (res, w') →
  dirs (fs w') = dirs (fs w) ∧
  (∀ q : string,
     (∀ t d' rj ex, cursor.parse (copy_sql tbl d r x) = cursor.CopyLocal t d' rj ex →
                    rj ≠ q ∧ ex ≠ q) →
     files (fs w') !! q = files (fs w) !! q) ∧
  requests w' = requests w ∧ connections w' = connections w ∧
  ((stmts (wh w') = stmts (wh w) ++ ["TRUNCATE TABLE " +:+ tbl] ∧
    stdout w' = stdout w ∧ log w' = log w ∧ is_ok res = false)
   ∨ (stmts (wh w') = stmts (wh w) ++ ["TRUNCATE TABLE " +:+ tbl; copy_sql tbl d r x] ∧
      stdout w' = stdout w ++ [copy_sql tbl d r x] ∧
      log w' = log w ++
        (if is_ok res
         then ["Completed loading " +:+ tbl +:+ " - #" +:+
               str_of_int (rowcount (wh w')) +:+ " Records"]
         else []))).
Proof.
  rewrite load_eq.
  destruct (cursor.execute E _ w) as [[u|e] w1] eqn:H1;
    pose proof (execute_stmts _ _ _ _ _ H1) as (Hs1 & Hd1 & _);
    pose proof (execute_truncate_fs _ _ _ _ _ H1) as Hf1;
    apply execute_inv in H1 as (Hr1 & Hc1 & Hl1 & Ho1 & _).
  - destruct (cursor.execute E _ (printed _ w1)) as [[u'|e] w2] eqn:H2;
      pose proof (execute_stmts _ _ _ _ _ H2) as (Hs2 & Hd2 & _);
      pose proof (λ q, execute_files _ _ _ _ _ q H2) as Hf2;
      apply execute_inv in H2 as (Hr2 & Hc2 & Hl2 & Ho2 & _);
      cbn in Hs2, Hd2, Hf2, Hr2, Hc2, Hl2, Ho2;
      intros H; injection H as <- <-; cbn;
      rewrite ?Hd2, ?Hr2, ?Hc2, ?Hd1, ?Hr1, ?Hc1; (split; [done|]);
      (split; [intros q Hq; rewrite (Hf2 q Hq), Hf1; reflexivity|]);
      (split; [done|]); (split; [done|]); right;
      rewrite Hs2, Hs1, <- app_assoc, Ho2, Ho1, Hl2, Hl1, ?app_nil_r; done.
  - intros H; injection H as <- <-. rewrite Hf1. repeat split; try done. left. done.
Qed.

Lemma merge_apps_world E apps tok w r w' :
  merge_apps E apps tok w = (r, w') →
  fs w' = fs w ∧ wh w' = wh w ∧ connections w' = connections w ∧ stdout w' = stdout w.
Proof.
  rewrite merge_apps_eq.
  destruct (merge_loop E (dict_iter apps) tok [] w) as [[frames|e] w1] eqn:Hl;
    intros H; injection H as <- <-; by eapply merge_loop_frame.
Qed.

(** X10: [load] prints the COPY statement exactly when the TRUNCATE
    statement did not raise, before the COPY statement runs, and logs the
    completion with the row count of the cursor exactly when both statements
    succeeded; it makes no request and opens no connection. *)
Theorem load_prints_then_logs E tbl d r x w res w' :
  load E tbl d r x w = (res, w') →
  let trunc := "TRUNCATE TABLE " +:+ tbl in
  let copy := "COPY " +:+ tbl +:+ " FROM LOCAL '" +:+ d +:+
              "' DELIMITER ',' SKIP 1 REJECTED DATA '" +:+ r +:+
              "' EXCEPTIONS '" +:+ x +:+ "' ABORT ON ERROR DIRECT" in
  requests w' = requests w ∧ connections w' = connections w ∧
  ((stmts (wh w') = stmts (wh w) ++ [trunc] ∧
    stdout w' = stdout w ∧ log w' = log w ∧ is_ok res = false)
   ∨ (stmts (wh w') = stmts (wh w) ++ [trunc; copy] ∧
      stdout w' = stdout w ++ [copy] ∧
      log w' = log w ++
        (if is_ok res
         then ["Completed loading " +:+ tbl +:+ " - #" +:+
               str_of_int (rowcount (wh w')) +:+ " Records"]
         else []))).
Proof.
  intros H trunc copy. apply load_inv in H as (_ & _ & Hr & Hc & H). done.
Qed.

Lemma load_prints_then_logs_witness :
  let E := Sample.serving (λ _, None) Sample.config (λ _, false) in
  let tbl := "adjust_daily_active_users" in
  let d := "/tmp/adjust_daus/output.csv" in
  let r := "/tmp/adjust_daus/rejects" in
  let x := "/tmp/adjust_daus/exceptions" in
  let trunc := "TRUNCATE TABLE " +:+ tbl in
  let copy := "COPY " +:+ tbl +:+ " FROM LOCAL '" +:+ d +:+
              "' DELIMITER ',' SKIP 1 REJECTED DATA '" +:+ r +:+
              "' EXCEPTIONS '" +:+ x +:+ "' ABORT ON ERROR DIRECT" in
  ∃ res w',
    load E tbl d r x Sample.stocked = (res, w') ∧
    requests w' = requests Sample.stocked ∧ connections w' = connections Sample.stocked ∧
    ((stmts (wh w') = stmts (wh Sample.stocked) ++ [trunc] ∧
      stdout w' = stdout Sample.stocked ∧ log w' = log Sample.stocked ∧
      is_ok res = false)
     ∨ (stmts (wh w') = stmts (wh Sample.stocked) ++ [trunc; copy] ∧
        stdout w' = stdout Sample.stocked ++ [copy] ∧
        log w' = log Sample.stocked ++
          (if is_ok res
           then ["Completed loading " +:+ tbl +:+ " - #" +:+
                 str_of_int (rowcount (wh w')) +:+ " Records"]
           else []))).
Proof.
  intros E tbl d r x trunc copy.
  pose (res := (load E tbl d r x Sample.stocked).1).
  pose (w' := (load E tbl d r x Sample.stocked).2).
  exists res, w'. split; [vm_compute; reflexivity|].
  apply (load_prints_then_logs E tbl d r x Sample.stocked res w'). vm_compute; reflexivity.
Defined.

(** The driver may write the two local files that the COPY statement names:
    here it writes one rejected line, and [load] leaves it in [rejects]. *)
Example load_leaves_rejects_file :
  let E := Env (λ _, None) (λ _ _, Raise (OverflowError "int too big to convert"))
             Sample.print_cell (λ _, Ok Sample.config)
             (λ _, true) (λ _, false) (λ _, None) (λ _, (Some ["bad,line"], None)) in
  let run := load E "adjust_daily_active_users" "/tmp/adjust_daus/output.csv"
               "/tmp/adjust_daus/rejects" "/tmp/adjust_daus/exceptions" Sample.stocked in
  files (fs Sample.stocked) !! "/tmp/adjust_daus/rejects" = None ∧
  files (fs run.2) !! "/tmp/adjust_daus/rejects" = Some ["bad,line"] ∧
  files (fs run.2) !! "/tmp/adjust_daus/exceptions" = None ∧
  files (fs run.2) !! "/tmp/adjust_daus/output.csv" =
    files (fs Sample.stocked) !! "/tmp/adjust_daus/output.csv".
Proof. repeat split; vm_compute; reflexivity. Qed.

Lemma adjust_cmd_inv E cfg w r w' :
  adjust_cmd E cfg w = (r, w') →
  (w' = w ∧ is_ok r = false) ∨
  ∃ s, load_settings E cfg = Ok s ∧
    let wc := connected ("DSN=" +:+ dsn (vertica s)) w in
    let lp := load_path s in
    (∃ e, merge_apps E (apps (adjust s)) (token (adjust s)) wc = (Raise e, w') ∧
          r = Raise e) ∨
    (∃ merged w1,
       merge_apps E (apps (adjust s)) (token (adjust s)) wc = (Ok merged, w1) ∧
       ((∃ e, write_to_file E merged lp default_filename w1 = (Raise e, w') ∧ r = Raise e) ∨
        (∃ w2,
           write_to_file E merged lp default_filename w1 =
             (Ok (os.path_join lp default_filename), w2) ∧
           load E (table (vertica s)) (os.path_join lp default_filename)
             (os.path_join lp "rejects") (os.path_join lp "exceptions") w2 = (r, w')))).
Proof.
  rewrite adjust_cmd_eq. destruct (load_settings E cfg) as [s|e];
    [|intros H; injection H as <- <-; left; split; reflexivity].
  rewrite connect_eq. destruct (odbc_accepts E _);
    [|intros H; injection H as <- <-; left; split; reflexivity].
  rewrite collect_eq. intros H. right. exists s. split; [reflexivity|]. cbv zeta.
  destruct (merge_apps E _ _ _) as [[merged|e] w1] eqn:Hm.
  - right. exists merged, w1. split; [reflexivity|].
    destruct (write_to_file E merged _ _ w1) as [[path|e] w2] eqn:Hw.
    + right. exists w2.
      pose proof (write_to_file_inv _ _ _ _ _ _ _ Hw) as (? & ? & _ & _ & [[Hp _]|[? _]]);
        [|discriminate].
      injection Hp as ->. split; [reflexivity | exact H].
    + left. exists e. injection H as <- <-. split; reflexivity.
  - left. exists e. injection H as <- <-. split; reflexivity.
Qed.

(** X11: a run hands a statement to the cursor only after the output file
    holds the header and the lines of the merged table: then a connection was
    opened with the DSN of the settings, the first statement is the TRUNCATE
    of the configured table, and the COPY statement, which follows it in a
    run that succeeds, names the output file and the files [rejects] and
    [exceptions] of the load path. *)
Theorem adjust_cmd_loads_after_writing E cfg w r w' :
  adjust_cmd E cfg w = (r, w') →
  stmts (wh w') = stmts (wh w) ∨
  ∃ s merged rest,
    load_settings E cfg = Ok s ∧
    let lp := load_path s in
    let tbl := table (vertica s) in
    let copy := "COPY " +:+ tbl +:+ " FROM LOCAL '" +:+ os.path_join lp "output.csv" +:+
                "' DELIMITER ',' SKIP 1 REJECTED DATA '" +:+ os.path_join lp "rejects" +:+
                "' EXCEPTIONS '" +:+ os.path_join lp "exceptions" +:+
                "' ABORT ON ERROR DIRECT" in
    (merge_apps E (apps (adjust s)) (token (adjust s))
       (connected ("DSN=" +:+ dsn (vertica s)) w)).1 = Ok merged ∧
    connections w' = connections w ++ ["DSN=" +:+ dsn (vertica s)] ∧
    files (fs w') !! os.path_join lp "output.csv" =
      Some ("adj_date,os,daus,waus,maus,installs,app" :: (pd.csv_line E <$> merged)) ∧
    stmts (wh w') = stmts (wh w) ++ ("TRUNCATE TABLE " +:+ tbl) :: rest ∧
    (if is_ok r then rest = [copy] else rest = [] ∨ rest = [copy]).
Proof.
  intros [[-> _]|(s & Hs & H)]%adjust_cmd_inv; [by left|]. cbn zeta in H.
  destruct H as [(e & Hm & ->)|(merged & w1 & Hm & H)].
  { left. apply merge_apps_world in Hm as (_ & -> & _). done. }
  pose proof (merge_apps_world _ _ _ _ _ _ Hm) as (_ & Hwh1 & Hc1 & _).
  destruct H as [(e & Hw & ->)|(w2 & Hw & Hl)].
  { left. apply write_to_file_inv in Hw as (? & ? & -> & _). cbn. by rewrite Hwh1. }
  right. exists s, merged.
  apply write_to_file_inv in Hw as (dd & fl & -> & _ & [[_ ->]|[? _]]); [|discriminate].
  apply load_inv in Hl as (_ & Hfs & _ & Hc & Hl).
  specialize (Hfs (os.path_join (load_path s) default_filename)
                (sidecars_miss_output _ _)).
  cbn in Hfs, Hc, Hl. rewrite lookup_insert_eq in Hfs.
  rewrite Hwh1 in Hl. cbn in Hl.
  destruct Hl as [(Hst & _ & _ & Hr)|(Hst & _ & _)].
  - exists []. split; [done|]. cbn zeta. rewrite Hm, Hc, Hc1, Hst, Hr. cbn.
    repeat split; try done. by left.
  - eexists [_]. split; [done|]. cbn zeta. rewrite Hm, Hc, Hc1, Hst. cbn.
    repeat split; try done.
    destruct (is_ok r); [reflexivity | by right].
Qed.

Lemma adjust_cmd_loads_after_writing_witness :
  let E := Sample.serving (Sample.two_apps "x" "c") Sample.short_names (λ _, false) in
  ∃ r w',
    adjust_cmd E "adjust.yml" Sample.stocked = (r, w') ∧
    (stmts (wh w') = stmts (wh Sample.stocked) ∨
     ∃ s merged rest,
       load_settings E "adjust.yml" = Ok s ∧
       let lp := load_path s in
       let tbl := table (vertica s) in
       let copy := "COPY " +:+ tbl +:+ " FROM LOCAL '" +:+ os.path_join lp "output.csv" +:+
                   "' DELIMITER ',' SKIP 1 REJECTED DATA '" +:+ os.path_join lp "rejects" +:+
                   "' EXCEPTIONS '" +:+ os.path_join lp "exceptions" +:+
                   "' ABORT ON ERROR DIRECT" in
       (merge_apps E (apps (adjust s)) (token (adjust s))
          (connected ("DSN=" +:+ dsn (vertica s)) Sample.stocked)).1 = Ok merged ∧
       connections w' = connections Sample.stocked ++ ["DSN=" +:+ dsn (vertica s)] ∧
       files (fs w') !! os.path_join lp "output.csv" =
         Some ("adj_date,os,daus,waus,maus,installs,app" :: (pd.csv_line E <$> merged)) ∧
       stmts (wh w') = stmts (wh Sample.stocked) ++ ("TRUNCATE TABLE " +:+ tbl) :: rest ∧
       (if is_ok r then rest = [copy] else rest = [] ∨ rest = [copy])).
Proof.
  intros E.
  pose (r := (adjust_cmd E "adjust.yml" Sample.stocked).1).
  pose (w' := (adjust_cmd E "adjust.yml" Sample.stocked).2).
  exists r, w'. split; [vm_compute; reflexivity|].
  apply (adjust_cmd_loads_after_writing E "adjust.yml" Sample.stocked r w'). vm_compute; reflexivity.
Defined.

(** X12: a run changes nothing before the warehouse connection is open:
    either it raised and left the world exactly as it was (the settings could
    not be loaded or the driver refused the connection), or it opened one
    connection, with the DSN of the settings. *)
Theorem adjust_cmd_connects_first E cfg w r w' :
  adjust_cmd E cfg w = (r, w') →
  (w' = w ∧ is_ok r = false) ∨
  ∃ s, load_settings E cfg = Ok s ∧
       odbc_accepts E ("DSN=" +:+ dsn (vertica s)) = true ∧
       connections w' = connections w ++ ["DSN=" +:+ dsn (vertica s)].
Proof.
  intros H. pose proof H as Hinv. rewrite adjust_cmd_eq in H.
  apply adjust_cmd_inv in Hinv as [?|(s & Hs & Hrun)]; [by left|].
  rewrite Hs, connect_eq in H.
  destruct (odbc_accepts E _) eqn:Hacc; [|injection H as <- <-; by left].
  right. exists s. split; [done|]. split; [done|]. cbn zeta in Hrun.
  destruct Hrun as [(e & Hm & _)|(merged & w1 & Hm & Hrun)];
    pose proof (merge_apps_world _ _ _ _ _ _ Hm) as (_ & _ & Hc1 & _); [done|].
  destruct Hrun as [(e & Hw & _)|(w2 & Hw & Hl)];
    apply write_to_file_inv in Hw as (? & ? & -> & _); [done|].
  apply load_inv in Hl as (_ & _ & _ & -> & _). done.
Qed.

Lemma adjust_cmd_connects_first_witness :
  let E := Env (λ _, None) (λ _ _, Raise (OverflowError "int too big to convert"))
             Sample.print_cell (λ _, Ok Sample.short_names)
             (λ _, false) (λ _, false) (λ _, None) (λ _, (None, None)) in
  ∃ r w',
    adjust_cmd E "adjust.yml" Sample.stocked = (r, w') ∧
    ((w' = Sample.stocked ∧ is_ok r = false) ∨
     ∃ s, load_settings E "adjust.yml" = Ok s ∧
          odbc_accepts E ("DSN=" +:+ dsn (vertica s)) = true ∧
          connections w' = connections Sample.stocked ++ ["DSN=" +:+ dsn (vertica s)]).
Proof.
  intros E.
  pose (r := (adjust_cmd E "adjust.yml" Sample.stocked).1).
  pose (w' := (adjust_cmd E "adjust.yml" Sample.stocked).2).
  exists r, w'. split; [vm_compute; reflexivity|].
  apply (adjust_cmd_connects_first E "adjust.yml" Sample.stocked r w'). vm_compute; reflexivity.
Defined.

(** X13: when [collect] returns, it returns the path of [output.csv] below
    the load path, and the file at this path holds the header line followed
    by the lines of the table that [merge_apps] returned, one line per row. *)
Theorem collect_writes_merged_table E a lp w path w' :
  collect E a lp w = (Ok path, w') →
  path = os.path_join lp "output.csv" ∧
  ∃ merged w1,
    merge_apps E (apps a) (token a) w = (Ok merged, w1) ∧
    files (fs w') !! path =
      Some ("adj_date,os,daus,waus,maus,installs,app" :: (pd.csv_line E <$> merged)) ∧
    wh w' = wh w.
Proof.
  rewrite collect_eq.
  destruct (merge_apps E (apps a) (token a) w) as [[merged|e] w1] eqn:Hm; [|discriminate].
  intros Hw. pose proof (merge_apps_world _ _ _ _ _ _ Hm) as (_ & Hwh & _).
  apply write_to_file_inv in Hw as (d & fl & -> & _ & [[Hp ->]|[? _]]); [|discriminate].
  injection Hp as ->. split; [reflexivity|]. exists merged, w1.
  split; [reflexivity|]. split; [apply lookup_insert_eq | exact Hwh].
Qed.

Lemma collect_writes_merged_table_witness :
  let E := Sample.serving (Sample.two_apps "x" "c") Sample.short_names (λ _, false) in
  let a := adjust Sample.short_names in
  ∃ path w',
    collect E a "/tmp/adjust_daus" Sample.idle = (Ok path, w') ∧
    path = os.path_join "/tmp/adjust_daus" "output.csv" ∧
    ∃ merged w1,
      merge_apps E (apps a) (token a) Sample.idle = (Ok merged, w1) ∧
      files (fs w') !! path =
        Some ("adj_date,os,daus,waus,maus,installs,app" :: (pd.csv_line E <$> merged)) ∧
      wh w' = wh Sample.idle.
Proof.
  intros E a.
  pose (w' := (collect E a "/tmp/adjust_daus" Sample.idle).2).
  exists (os.path_join "/tmp/adjust_daus" "output.csv"), w'.
  split; [vm_compute; reflexivity|].
  apply (collect_writes_merged_table E a "/tmp/adjust_daus" Sample.idle
           (os.path_join "/tmp/adjust_daus" "output.csv") w').
  vm_compute; reflexivity.
Defined.
